(** * The HTTP layers of the Stylk front-end

    Two modules of the application talk to the network:

    - [src/api/client.js]: [apiRequest] with an error taxonomy
      ([mapStatusToErrorType]), a retry policy ([shouldRetry]) and an
      exponential backoff ([getRetryDelay]);
    - [src/utils/http.js]: [createHttpClient] with three interceptor
      registries and a retry loop in [request].

    Both are embedded below as executable functions.  JavaScript values that
    the code inspects (thrown values, responses, abort signals) are given as
    data; the browser (fetch, timers, [Math.random]) is an explicit
    environment that the functions read.  Numbers that the code computes
    with in floating point are IEEE 754 doubles ([float]). *)

From Stdlib Require Import ZArith List String Ascii Bool Lia.
From Stdlib Require Import Floats DecimalString.
Import ListNotations.

Set Implicit Arguments.
Open Scope string_scope.
Open Scope list_scope.

(** ** JavaScript values shared by both modules *)

Module Js.

(** Completion of an evaluation: a value, or a thrown value. *)
Inductive Completion (A X : Type) : Type :=
| Normal (a : A)
| Throw (x : X).
Arguments Normal {A X} a.
Arguments Throw {A X} x.

(** An [Error] object that is not an [ApiError]: [TypeError],
    [SyntaxError], [DOMException], ...  Only [name] and [message] are read
    by the code. *)
Record RawError : Type := mkRawError { name : string; message : string }.

(** The values that the code catches, stores in [lastError] or receives
    from an interceptor.  [E] is the [ApiError] class of the module at
    hand (each module declares its own). *)
Inductive Value (E : Type) : Type :=
| VUndefined
| VNull
| VString (s : string)
| VError (r : RawError)
| VApiError (e : E).
Arguments VUndefined {E}.
Arguments VNull {E}.
Arguments VString {E} s.
Arguments VError {E} r.
Arguments VApiError {E} e.

(** [String.prototype.includes]. *)
Fixpoint includes (s sub : string) : bool :=
  String.prefix sub s ||
  match s with
  | EmptyString => false
  | String _ s' => includes s' sub
  end.

(** [String.prototype.startsWith]. *)
Definition startsWith (s pre : string) : bool := String.prefix pre s.

(** A parsed JSON document, seen through the one property the clients
    read from it: [message] is [Some m] when the document is an object
    whose [message] property is truthy, [m] being its text. *)
Record Json : Type := mkJson { json_message : option string; json_text : string }.

Record Blob : Type := mkBlob { blob_bytes : string }.

(** A fetch [Response].  [contentType] is [headers.get('content-type')]
    (header names are case-insensitive); the three body readers either
    deliver or reject with an error object. *)
Record Response : Type := mkResponse {
  status : Z;
  statusText : string;
  contentType : option string;
  headers : list (string * string);
  json : Completion Json RawError;
  text : Completion string RawError;
  blob : Completion Blob RawError
}.

(** [response.ok] *)
Definition ok (r : Response) : bool := (200 <=? status r)%Z && (status r <=? 299)%Z.

(** [x || y] on strings: the empty string is falsy. *)
Definition or_string (x : option string) (y : string) : string :=
  match x with
  | Some s => if String.eqb s "" then y else s
  | None => y
  end.

(** [Math.min] of two numbers. *)
Definition Math_min (a b : float) : float :=
  if is_nan a || is_nan b then nan
  else if (a <? b)%float then a
  else if (b <? a)%float then b
  else match classify a with
       | NZero => a
       | _ => b
       end.

(** [Math.pow(2, n)] for an integer [n]: an exact power of two, [Infinity]
    from 1024 on and 0 below -1074. *)
Definition Math_pow2 (n : Z) : float := Z.ldexp 1%float n.

(** A number as a count of whole milliseconds, cut towards zero; [NaN] and
    the infinities count as 0. *)
Definition truncate (f : float) : Z :=
  match Prim2SF f with
  | S754_finite s m e =>
      let magnitude := if (0 <=? e)%Z then Z.shiftl (Zpos m) e
                       else Z.shiftr (Zpos m) (- e) in
      if s then (- magnitude)%Z else magnitude
  | _ => 0%Z
  end.

End Js.

Import Js.

(** ** [src/api/client.js] *)

Module Client.

(** [ErrorType] *)
Inductive ErrorType : Type :=
| NETWORK | TIMEOUT | SERVER | AUTH | VALIDATION | NOT_FOUND | CANCELED | UNKNOWN.

(** The string each member of [ErrorType] stands for. *)
Definition ErrorType_string (t : ErrorType) : string :=
  match t with
  | NETWORK => "network"
  | TIMEOUT => "timeout"
  | SERVER => "server"
  | AUTH => "authentication"
  | VALIDATION => "validation"
  | NOT_FOUND => "not_found"
  | CANCELED => "canceled"
  | UNKNOWN => "unknown"
  end.

Definition ErrorType_eqb (a b : ErrorType) : bool :=
  String.eqb (ErrorType_string a) (ErrorType_string b).

(** What an [ApiError] carries in [data]: the parsed body of the response,
    or [{ originalError: error }] for a caught value that is not an
    [ApiError]. *)
Inductive Original : Type :=
| OriginalError (r : RawError)
| OriginalString (s : string).

Inductive Payload : Type :=
| DataJson (j : Json)
| DataText (s : string)
| DataOriginal (o : Original).

(** [class ApiError extends Error] *)
Record ApiError : Type := mkApiError {
  message : string;
  type : ErrorType;
  statusCode : Z;
  data : Payload
}.

(** [mapStatusToErrorType] *)
Definition mapStatusToErrorType (statusCode : Z) : ErrorType :=
  if (500 <=? statusCode)%Z then SERVER
  else if (statusCode =? 401)%Z || (statusCode =? 403)%Z then AUTH
  else if (statusCode =? 404)%Z then NOT_FOUND
  else if (statusCode =? 422)%Z then VALIDATION
  else UNKNOWN.

(** [shouldRetry] *)
Definition shouldRetry (error : ApiError) (retryCount maxRetries : Z) : bool :=
  if (maxRetries <=? retryCount)%Z then false
  else if ErrorType_eqb (type error) AUTH
          || ErrorType_eqb (type error) VALIDATION
          || ErrorType_eqb (type error) CANCELED
  then false
  else ErrorType_eqb (type error) NETWORK
       || ErrorType_eqb (type error) TIMEOUT
       || (ErrorType_eqb (type error) SERVER && (500 <=? statusCode error)%Z).

(** [getRetryDelay].  [retryCount] is the integer [currentRetry]; [random]
    is the value [Math.random()] returns at this call, a double of
    [[0, 1)].  The arithmetic is that of doubles, each operation rounded to
    nearest. *)
#[warnings="-inexact-float"]
Definition getRetryDelay (retryCount : Z) (random : float) : float :=
  let baseDelay := 300%float in
  let maxDelay := 3000%float in
  let exponentialDelay :=
    Math_min maxDelay (baseDelay * Math_pow2 retryCount)%float in
  let jitter := (exponentialDelay * 0.2 * (random - 0.5))%float in
  (exponentialDelay + jitter)%float.

(** The largest double below 1: no draw of [Math.random()] is above
    it. *)
Definition largestDraw : float := Eval compute in next_down 1%float.

(** *** The browser as [apiRequest] sees it *)

(** A cancellation handle supplied by the caller: the time, in ms after the
    call of [apiRequest], at which it aborts (if it ever does) and the
    reason it aborts with. *)
Record AbortSignal : Type := mkAbortSignal {
  abortAt : option Z;
  reason : Value ApiError
}.

(** What the network does with one call of [fetch]. *)
Inductive ServerBehaviour : Type :=
| Replies (after : Z) (r : Response)
| Fails (after : Z) (e : RawError)
| Silent.

(** The environment of one call of [apiRequest]: the network's answer to
    the k-th call of [fetch], the value of the k-th call of [Math.random],
    the value [fetch] rejects with when the signal it was given aborts with
    a reason, and [DEFAULT_OPTIONS.timeout]. *)
Record World : Type := mkWorld {
  server : nat -> ServerBehaviour;
  random : nat -> float;
  abortRejection : Value ApiError -> Value ApiError;
  DEFAULT_timeout : Z
}.

Inductive Settled (A : Type) : Type :=
| SettledAt (t : Z) (a : A)
| Never.
Arguments Never {A}.

(** [fetch(url, { signal })] started at time [now]: it settles with the
    network's answer, or rejects when [signal] aborts, whichever comes
    first (the abort, when both come at the same time); [signal] is given
    by the time and reason of its abort.  A signal that no [fetch] was
    given has no effect on it. *)
Definition fetch (w : World) (k : nat) (now : Z)
    (signal : option (Z * Value ApiError))
  : Settled (Completion Response (Value ApiError)) :=
  let aborted t :=
    match signal with
    | Some (a, why) =>
        if (a <=? t)%Z then Some (SettledAt (Z.max now a) (Throw (abortRejection w why)))
        else None
    | None => None
    end in
  match server w k with
  | Replies d r =>
      match aborted (now + d)%Z with
      | Some s => s
      | None => SettledAt (now + d)%Z (Normal r)
      end
  | Fails d e =>
      match aborted (now + d)%Z with
      | Some s => s
      | None => SettledAt (now + d)%Z (Throw (VError e))
      end
  | Silent =>
      match signal with
      | Some (a, why) => SettledAt (Z.max now a) (Throw (abortRejection w why))
      | None => Never
      end
  end.

(** The timer set by [setTimeout(() => controller.abort('timeout'), timeout)]. *)
Inductive Timer : Type := Armed | Cleared | Fired.

(** [clearTimeout(timeoutId)] at time [now]. *)
Definition clearTimeout (timeout now : Z) (t : Timer) : Timer :=
  match t with
  | Armed => if (now <? Z.max 0 timeout)%Z then Cleared else Fired
  | _ => t
  end.

(** When [controller.signal] aborts. *)
Definition controller_signal (timeout : Z) (t : Timer) : option (Z * Value ApiError) :=
  match t with
  | Cleared => None
  | _ => Some (Z.max 0 timeout, VString "timeout")
  end.

(** *** [apiRequest] *)

(** The options of [apiRequest] that steer it. *)
Record Options : Type := mkOptions {
  timeout : option Z;
  retries : option Z;
  signal : option AbortSignal
}.

(** The envelope a successful request resolves with; its [status] field is
    always [ApiStatus.SUCCESS]. *)
Record Success : Type := mkSuccess {
  success_data : Payload;
  success_headers : list (string * string);
  success_statusCode : Z
}.

Inductive Outcome : Type :=
| Fulfilled (r : Success)
| Rejected (v : Value ApiError)
| PendingForever
| OutOfFuel.

(** The variables [executeRequest] closes over, the clock, and what the
    run has used up: the calls of [fetch] and of [Math.random], and the
    delays it waited. *)
Record State : Type := mkState {
  now : Z;
  timer : Timer;
  currentRetry : Z;
  fetches : nat;
  randoms : nat;
  delays : list float
}.

(** [error.name] and [error.message]; reading a property of [undefined] or
    [null] throws a [TypeError]. *)
Definition TypeError_property : RawError :=
  mkRawError "TypeError" "Cannot read properties of undefined".

Definition get_name (v : Value ApiError) : Completion (option string) (Value ApiError) :=
  match v with
  | VUndefined | VNull => Throw (VError TypeError_property)
  | VString _ => Normal None
  | VError r => Normal (Some (Js.name r))
  | VApiError _ => Normal (Some "ApiError")
  end.

Definition get_message (v : Value ApiError) : option string :=
  match v with
  | VError r => Some (Js.message r)
  | VApiError e => Some (message e)
  | _ => None
  end.

Definition original (v : Value ApiError) : Original :=
  match v with
  | VError r => OriginalError r
  | VString s => OriginalString s
  | VApiError e => OriginalError (mkRawError "ApiError" (message e))
  | _ => OriginalString ""
  end.

(** [const requestSignal = signal || controller.signal] *)
Definition requestSignal (o : Options) (timeout : Z) (t : Timer)
  : option (Z * Value ApiError) :=
  match signal o with
  | Some s =>
      match abortAt s with
      | Some a => Some (a, reason s)
      | None => None
      end
  | None => controller_signal timeout t
  end.

(** The [try] block of [executeRequest] once [fetch] has settled. *)
Definition parseBody (response : Response) : Completion Payload (Value ApiError) :=
  let isJson :=
    match contentType response with
    | Some ct => includes ct "application/json"
    | None => false
    end in
  if isJson then
    match json response with
    | Normal j => Normal (DataJson j)
    | Throw e => Throw (VError e)
    end
  else
    match text response with
    | Normal s => Normal (DataText s)
    | Throw e => Throw (VError e)
    end.

Definition data_message (d : Payload) : option string :=
  match d with
  | DataJson j => json_message j
  | _ => None
  end.

Definition handleResponse (response : Response) : Completion Success (Value ApiError) :=
  match parseBody response with
  | Throw v => Throw v
  | Normal data =>
      if negb (ok response) then
        let errorType := mapStatusToErrorType (status response) in
        let errorMessage :=
          or_string (data_message data)
            (or_string (Some (statusText response)) "API request failed") in
        Throw (VApiError (mkApiError errorMessage errorType (status response) data))
      else
        Normal (mkSuccess data (headers response) (status response))
  end.

(** What the [catch] block of [executeRequest] does with the value it
    caught: it throws, or it asks for another attempt. *)
Inductive Caught : Type :=
| Rethrow (v : Value ApiError)
| Again.

Definition catchBlock (error : Value ApiError) (currentRetry retries : Z) : Caught :=
  match get_name error with
  | Throw x => Rethrow x
  | Normal name =>
      if match name with Some n => String.eqb n "AbortError" | None => false end then
        let isTimeout :=
          match get_message error with
          | Some m => String.eqb m "timeout"
          | None => false
          end in
        let errorType := if isTimeout then TIMEOUT else CANCELED in
        let errorMessage := if isTimeout then "Request timed out" else "Request canceled" in
        Rethrow (VApiError (mkApiError errorMessage errorType 0 (DataOriginal (original error))))
      else
        match error with
        | VApiError e =>
            if shouldRetry e currentRetry retries then Again else Rethrow error
        | _ =>
            let apiError :=
              mkApiError (or_string (get_message error) "Network error")
                         NETWORK 0 (DataOriginal (original error)) in
            if shouldRetry apiError currentRetry retries then Again
            else Rethrow (VApiError apiError)
        end
  end.

(** [currentRetry++], [getRetryDelay(currentRetry)] and the wait; a timer
    delay is cut to whole milliseconds. *)
Definition backoff (w : World) (st : State) : State :=
  let currentRetry' := (currentRetry st + 1)%Z in
  let delay := getRetryDelay currentRetry' (random w (randoms st)) in
  mkState (now st + Z.max 0 (truncate delay))%Z (timer st) currentRetry'
          (fetches st) (S (randoms st)) (delays st ++ [delay]).

(** [executeRequest]; every recursive call is a retry, and [fuel] bounds
    their number. *)
Fixpoint executeRequest (fuel : nat) (w : World) (o : Options)
    (timeout retries : Z) (st : State) : Outcome * State :=
  match fuel with
  | O => (OutOfFuel, st)
  | S fuel' =>
      match fetch w (fetches st) (now st) (requestSignal o timeout (timer st)) with
      | Never =>
          (PendingForever,
           mkState (now st) (timer st) (currentRetry st) (S (fetches st))
                   (randoms st) (delays st))
      | SettledAt t settled =>
          let st1 :=
            mkState t (clearTimeout timeout t (timer st)) (currentRetry st)
                    (S (fetches st)) (randoms st) (delays st) in
          let attempt :=
            match settled with
            | Normal response => handleResponse response
            | Throw v => Throw v
            end in
          match attempt with
          | Normal r => (Fulfilled r, st1)
          | Throw error =>
              match catchBlock error (currentRetry st1) retries with
              | Rethrow v => (Rejected v, st1)
              | Again => executeRequest fuel' w o timeout retries (backoff w st1)
              end
          end
      end
  end.

(** [apiRequest]: the defaults of the destructured options, the timer, and
    the first call of [executeRequest].  The URL, the headers and the body
    of the request do not steer what follows and are left out; an exception
    raised while they are built is caught like a failure of [fetch]. *)
Definition apiRequest (w : World) (o : Options) : Outcome * State :=
  let timeout := match timeout o with Some t => t | None => DEFAULT_timeout w end in
  let retries := match retries o with Some r => r | None => 1%Z end in
  executeRequest (S (Z.to_nat retries)) w o timeout retries
                 (mkState 0 Armed 0 0 0 []).

(** [undefined] and [null]: the values that have no properties. *)
Definition nullish (v : Value ApiError) : bool :=
  match v with
  | VUndefined | VNull => true
  | _ => false
  end.

(** The reasons a signal given to [fetch] can abort with: the timer's and
    the caller's. *)
Definition abort_reasons (o : Options) : list (Value ApiError) :=
  VString "timeout" ::
  match signal o with
  | Some s => [reason s]
  | None => []
  end.

(** A platform on which an aborted [fetch] rejects with an error named
    [AbortError] whose message is the reason given to [abort]: the one the
    [catch] block of [executeRequest] is written for. *)
Definition abortErrorOf (why : Value ApiError) : Value ApiError :=
  VError (mkRawError "AbortError"
            match why with
            | VString s => s
            | VError r => Js.message r
            | VApiError e => message e
            | _ => "signal is aborted without reason"
            end).

(** The platform of the Fetch standard: an aborted [fetch] rejects with the
    abort reason itself. *)
Definition abortReason (why : Value ApiError) : Value ApiError := why.

(** Two states of [executeRequest] that differ at most in the timer. *)
Definition same_but_timer (a b : State) : Prop :=
  now a = now b /\ currentRetry a = currentRetry b /\ fetches a = fetches b
  /\ randoms a = randoms b /\ delays a = delays b.

End Client.

(** ** [src/utils/http.js] *)

Module Http.

(** What [processResponse] delivers: parsed JSON, text, a blob, or the
    [Response] object itself. *)
Inductive Body : Type :=
| BJson (j : Json)
| BText (s : string)
| BBlob (b : Blob)
| BResponse (r : Response).

(** [class ApiError extends Error]; [data] is [null] or a body,
    [originalError] is [null] or the caught error object. *)
Record ApiError : Type := mkApiError {
  message : string;
  status : Z;
  data : option Body;
  originalError : option RawError
}.

Definition Value : Type := Js.Value ApiError.

(** [DEFAULT_CONFIG] merged with the options of a request. *)
Record RequestConfig : Type := mkRequestConfig {
  baseURL : string;
  timeout : Z;
  headers : list (string * string);
  retries : Z;
  retryDelay : Z;
  cache : bool;
  credentials : string;
  method : option string;
  body : option string
}.

(** An object literal that sets some of these properties:
    [customConfig] of [createHttpClient], [options] of [request]. *)
Record Partial : Type := mkPartial {
  p_baseURL : option string;
  p_timeout : option Z;
  p_headers : option (list (string * string));
  p_retries : option Z;
  p_retryDelay : option Z;
  p_cache : option bool;
  p_credentials : option string;
  p_method : option string;
  p_body : option string
}.

Definition no_options : Partial :=
  mkPartial None None None None None None None None None.

(** [VITE_API_URL || 'https://api.example.com'] is the argument. *)
Definition DEFAULT_CONFIG (apiUrl : string) : RequestConfig :=
  mkRequestConfig apiUrl 30000
    [("Content-Type", "application/json"); ("Accept", "application/json")]
    0 1000 false "same-origin" None None.

(** [ERROR_MESSAGES[status]] *)
Definition ERROR_MESSAGES (status : Z) : option string :=
  if (status =? 400)%Z then Some "The request was invalid"
  else if (status =? 401)%Z then Some "Authentication required"
  else if (status =? 403)%Z then Some "You do not have permission to access this resource"
  else if (status =? 404)%Z then Some "The requested resource was not found"
  else if (status =? 408)%Z then Some "The request timed out"
  else if (status =? 409)%Z then Some "The request conflicted with another request"
  else if (status =? 422)%Z then Some "Validation error"
  else if (status =? 429)%Z then Some "Too many requests - please try again later"
  else if (status =? 500)%Z then Some "An error occurred on the server"
  else if (status =? 502)%Z then Some "Bad gateway"
  else if (status =? 503)%Z then Some "Service unavailable - please try again later"
  else if (status =? 504)%Z then Some "Gateway timeout"
  else None.

(** *** The interceptor registries *)

(** A function object; [indexOf] compares function objects by identity. *)
Definition Ref : Type := nat.

(** The three module-level arrays. *)
Record Registries : Type := mkRegistries {
  requestInterceptors : list Ref;
  responseInterceptors : list Ref;
  errorInterceptors : list Ref
}.

(** [Array.prototype.indexOf]: the first index holding [x], or [-1]. *)
Fixpoint indexOf (l : list Ref) (x : Ref) : Z :=
  match l with
  | [] => (-1)%Z
  | y :: l' =>
      if Nat.eqb y x then 0%Z
      else let i := indexOf l' x in
           if (i =? -1)%Z then (-1)%Z else (i + 1)%Z
  end.

(** [Array.prototype.splice(index, deleteCount)] for [0 <= index]. *)
Definition splice (l : list Ref) (index : Z) (deleteCount : nat) : list Ref :=
  firstn (Z.to_nat index) l ++ skipn (Z.to_nat index + deleteCount) l.

(** The body of the function each [add...Interceptor] returns. *)
Definition remover (interceptor : Ref) (l : list Ref) : list Ref :=
  let index := indexOf l interceptor in
  if negb (index =? -1)%Z then splice l index 1 else l.

(** [addRequestInterceptor]: the registries after the [push], and the
    returned function as a transformer of the registries it is later
    called on. *)
Definition addRequestInterceptor (interceptor : Ref) (g : Registries)
  : Registries * (Registries -> Registries) :=
  (mkRegistries (requestInterceptors g ++ [interceptor])
                (responseInterceptors g) (errorInterceptors g),
   fun g' => mkRegistries (remover interceptor (requestInterceptors g'))
                          (responseInterceptors g') (errorInterceptors g')).

(** [addResponseInterceptor] *)
Definition addResponseInterceptor (interceptor : Ref) (g : Registries)
  : Registries * (Registries -> Registries) :=
  (mkRegistries (requestInterceptors g)
                (responseInterceptors g ++ [interceptor]) (errorInterceptors g),
   fun g' => mkRegistries (requestInterceptors g')
                          (remover interceptor (responseInterceptors g'))
                          (errorInterceptors g')).

(** [addErrorInterceptor] *)
Definition addErrorInterceptor (interceptor : Ref) (g : Registries)
  : Registries * (Registries -> Registries) :=
  (mkRegistries (requestInterceptors g) (responseInterceptors g)
                (errorInterceptors g ++ [interceptor]),
   fun g' => mkRegistries (requestInterceptors g') (responseInterceptors g')
                          (remover interceptor (errorInterceptors g'))).

(** *** Applying the chains *)

(** The envelope [request] hands to the response interceptors. *)
Record Envelope : Type := mkEnvelope {
  env_data : Body;
  env_status : Z;
  env_headers : list (string * string)
}.

(** What the registered function objects do when called.  A request
    interceptor maps a configuration to a configuration, a response
    interceptor an envelope to an envelope, an error interceptor returns any
    value; each of them may throw any value instead. *)
Record Functions : Type := mkFunctions {
  requestFn : Ref -> RequestConfig -> Completion RequestConfig Value;
  responseFn : Ref -> Envelope -> Completion Envelope Value;
  errorFn : Ref -> Value -> Completion Value Value
}.

(** What a run leaves behind, in order. *)
Inductive Event : Type :=
| CallRequestInterceptor (i : Ref)
| CallFetch (url : string) (attempt : Z)
| CallResponseInterceptor (i : Ref)
| CallErrorInterceptor (i : Ref)
| Sleep (ms : Z).

(** [processResponse] *)
Definition processResponse (response : Response) : Completion Body RawError :=
  let contentType :=
    match Js.contentType response with Some c => c | None => "" end in
  if includes contentType "application/json" then
    match json response with
    | Normal d => Normal (BJson d)
    | Throw e => Throw e
    end
  else if includes contentType "text/plain" || includes contentType "text/html" then
    match text response with
    | Normal t => Normal (BText t)
    | Throw e => Throw e
    end
  else if includes contentType "application/octet-stream" then
    match blob response with
    | Normal b => Normal (BBlob b)
    | Throw e => Throw e
    end
  else Normal (BResponse response).

(** [applyRequestInterceptors]: a [reduce] over the registry. *)
Fixpoint applyRequestInterceptors (f : Functions) (l : list Ref)
    (config : RequestConfig) : Completion RequestConfig Value * list Event :=
  match l with
  | [] => (Normal config, [])
  | interceptor :: l' =>
      match requestFn f interceptor config with
      | Normal currentConfig =>
          let (r, ev) := applyRequestInterceptors f l' currentConfig in
          (r, CallRequestInterceptor interceptor :: ev)
      | Throw x => (Throw x, [CallRequestInterceptor interceptor])
      end
  end.

(** [applyResponseInterceptors] *)
Fixpoint applyResponseInterceptors (f : Functions) (l : list Ref)
    (response : Envelope) : Completion Envelope Value * list Event :=
  match l with
  | [] => (Normal response, [])
  | interceptor :: l' =>
      match responseFn f interceptor response with
      | Normal currentResponse =>
          let (r, ev) := applyResponseInterceptors f l' currentResponse in
          (r, CallResponseInterceptor interceptor :: ev)
      | Throw x => (Throw x, [CallResponseInterceptor interceptor])
      end
  end.

Definition TypeError_property : RawError :=
  mkRawError "TypeError" "Cannot read properties of undefined".

Definition nullish (v : Value) : bool :=
  match v with
  | VUndefined | VNull => true
  | _ => false
  end.

(** [result instanceof Error] *)
Definition instanceof_Error (v : Value) : bool :=
  match v with
  | VError _ | VApiError _ => true
  | _ => false
  end.

(** The [for] loop of [applyErrorInterceptors]; [error] is the argument of
    the function, which the [catch] block reads for the log entry. *)
Fixpoint errorLoop (f : Functions) (error : Value) (l : list Ref)
    (currentError : Value) : Completion Value Value * list Event :=
  match l with
  | [] => (Normal currentError, [])
  | interceptor :: l' =>
      match errorFn f interceptor currentError with
      | Normal result =>
          match result with
          | VNull => (Normal VNull, [CallErrorInterceptor interceptor])
          | _ =>
              let (r, ev) :=
                errorLoop f error l'
                  (if instanceof_Error result then result else currentError) in
              (r, CallErrorInterceptor interceptor :: ev)
          end
      | Throw interceptorError =>
          (* { error: interceptorError.message, originalError: error.message } *)
          if nullish interceptorError || nullish error then
            (Throw (VError TypeError_property), [CallErrorInterceptor interceptor])
          else
            let (r, ev) := errorLoop f error l' currentError in
            (r, CallErrorInterceptor interceptor :: ev)
      end
  end.

(** [applyErrorInterceptors] *)
Definition applyErrorInterceptors (f : Functions) (l : list Ref) (error : Value)
  : Completion Value Value * list Event :=
  errorLoop f error l error.

(** *** [request] *)

(** [{ ...a, ...b }] on header objects. *)
Fixpoint set_header (a : list (string * string)) (k v : string) : list (string * string) :=
  match a with
  | [] => [(k, v)]
  | (k', v') :: a' =>
      if String.eqb k' k then (k', v) :: a' else (k', v') :: set_header a' k v
  end.

Definition spread_headers (a b : list (string * string)) : list (string * string) :=
  fold_left (fun acc kv => set_header acc (fst kv) (snd kv)) b a.

Definition or_else {A : Type} (x : option A) (d : A) : A :=
  match x with Some a => a | None => d end.

(** [{ ...config, ...customConfig }] *)
Definition spread (config : RequestConfig) (o : Partial) : RequestConfig :=
  mkRequestConfig
    (or_else (p_baseURL o) (baseURL config))
    (or_else (p_timeout o) (timeout config))
    (or_else (p_headers o) (headers config))
    (or_else (p_retries o) (retries config))
    (or_else (p_retryDelay o) (retryDelay config))
    (or_else (p_cache o) (cache config))
    (or_else (p_credentials o) (credentials config))
    (match p_method o with Some m => Some m | None => method config end)
    (match p_body o with Some m => Some m | None => body config end).

(** [{ ...config, ...options, headers: { ...config.headers, ...options.headers } }] *)
Definition mergeOptions (config : RequestConfig) (options : Partial) : RequestConfig :=
  let c := spread config options in
  mkRequestConfig (baseURL c) (timeout c)
    (spread_headers (headers config) (or_else (p_headers options) []))
    (retries c) (retryDelay c) (cache c) (credentials c) (method c) (body c).

(** [error.name]; it throws on [undefined] and [null]. *)
Definition get_name (v : Value) : Completion (option string) Value :=
  match v with
  | VUndefined | VNull => Throw (VError TypeError_property)
  | VString _ => Normal None
  | VError r => Normal (Some (Js.name r))
  | VApiError _ => Normal (Some "ApiError")
  end.

Definition get_message (v : Value) : option string :=
  match v with
  | VError r => Some (Js.message r)
  | VApiError e => Some (message e)
  | _ => None
  end.

Definition raw (v : Value) : option RawError :=
  match v with
  | VError r => Some r
  | _ => None
  end.

(** [errorData?.message] *)
Definition errorData_message (d : option Body) : option string :=
  match d with
  | Some (BJson j) => json_message j
  | _ => None
  end.

(** The decimal numeral of a status code in a template literal. *)
Definition decimal (z : Z) : string :=
  DecimalString.NilZero.string_of_int (Z.to_int z).

(** The [ApiError] built from a response that is not [ok]. *)
Definition responseError (response : Response) : ApiError :=
  let errorData :=
    match processResponse response with
    | Normal d => Some d
    | Throw _ => None
    end in
  let errorMessage :=
    or_string (errorData_message errorData)
      (or_string (ERROR_MESSAGES (Js.status response))
         ("Request failed with status " ++ decimal (Js.status response))%string) in
  mkApiError errorMessage (Js.status response) errorData None.

(** How the [try] block of one pass of the [while] loop ends. *)
Inductive TryBlock : Type :=
| Return (r : Envelope)
| Store (e : ApiError)
| Raise (error : Value).

Definition nonRetryable (status : Z) : bool :=
  (status =? 400)%Z || (status =? 401)%Z || (status =? 403)%Z
  || (status =? 404)%Z || (status =? 422)%Z.

Definition tryBlock (f : Functions) (g : Registries)
    (settled : Completion Response Value) : TryBlock * list Event :=
  match settled with
  | Throw x => (Raise x, [])
  | Normal response =>
      if ok response then
        match processResponse response with
        | Throw e => (Raise (VError e), [])
        | Normal data =>
            match applyResponseInterceptors f (responseInterceptors g)
                    (mkEnvelope data (Js.status response) (Js.headers response)) with
            | (Normal r, ev) => (Return r, ev)
            | (Throw x, ev) => (Raise x, ev)
            end
        end
      else
        let apiError := responseError response in
        if nonRetryable (Js.status response) then (Raise (VApiError apiError), [])
        else (Store apiError, [])
  end.

(** The assignments to [lastError] in the [catch] block; reading
    [error.name] may itself throw. *)
Definition catchBlock (error : Value) : Completion Value Value :=
  match get_name error with
  | Throw x => Throw x
  | Normal name =>
      if match name with Some n => String.eqb n "AbortError" | None => false end then
        Normal (VApiError (mkApiError "Request timed out" 408 None (raw error)))
      else if match name with Some n => String.eqb n "TypeError" | None => false end
              && match get_message error with
                 | Some m => String.eqb m "Failed to fetch"
                 | None => false
                 end then
        Normal (VApiError (mkApiError "Network error - please check your connection"
                                      0 None (raw error)))
      else Normal error
  end.

(** How the [while] loop ends. *)
Inductive Loop : Type :=
| Returned (r : Envelope)
| Left (lastError : Value)
| Escaped (x : Value)
| OutOfFuel.

(** [while (attempt <= retries) { ... attempt++ }]; [net attempt] is what
    the call of [fetch] in pass [attempt] settles with (an [AbortError] when
    the timer set before the loop has fired). *)
Fixpoint attempts (fuel : nat) (f : Functions) (g : Registries)
    (net : Z -> Completion Response Value) (requestUrl : string)
    (retries retryDelay : Z)
    (attempt : Z) (lastError : Value) : Loop * list Event :=
  if (attempt <=? retries)%Z then
    match fuel with
    | O => (OutOfFuel, [])
    | S fuel' =>
        let (t, ev) := tryBlock f g (net attempt) in
        match t with
        | Return r => (Returned r, CallFetch requestUrl attempt :: ev)
        | Store apiError =>
            let (r, ev') :=
              attempts fuel' f g net requestUrl retries retryDelay (attempt + 1)%Z
                       (VApiError apiError) in
            (r, CallFetch requestUrl attempt :: ev ++ ev')
        | Raise error =>
            match catchBlock error with
            | Throw x => (Escaped x, CallFetch requestUrl attempt :: ev)
            | Normal lastError' =>
                if (attempt =? retries)%Z then
                  (Left lastError', CallFetch requestUrl attempt :: ev)
                else
                  let (r, ev') :=
                    attempts fuel' f g net requestUrl retries retryDelay
                             (attempt + 1)%Z lastError' in
                  (r, CallFetch requestUrl attempt :: ev ++ Sleep retryDelay :: ev')
            end
        end
    end
  else (Left lastError, []).

(** What [request] resolves with. *)
Inductive Result : Type :=
| Data (r : Envelope)
| Null
| NoFuel.

(** [url.startsWith('http') ? url : baseURL + url] *)
Definition resolveUrl (config : RequestConfig) (url : string) : string :=
  if startsWith url "http" then url else (baseURL config ++ url)%string.

(** [request(url, options)] of the client made by [createHttpClient] with
    the merged configuration [config]. *)
Definition request (f : Functions) (g : Registries) (config : RequestConfig)
    (net : Z -> Completion Response Value) (url : string) (options : Partial)
  : Completion Result Value * list Event :=
  let requestUrl := resolveUrl config url in
  match applyRequestInterceptors f (requestInterceptors g)
          (mergeOptions config options) with
  | (Throw x, ev) => (Throw x, ev)
  | (Normal requestConfig, ev) =>
      match attempts (Z.to_nat (retries requestConfig + 1)) f g net requestUrl
              (retries requestConfig) (retryDelay requestConfig) 0 VUndefined with
      | (Returned r, ev') => (Normal (Data r), ev ++ ev')
      | (Escaped x, ev') => (Throw x, ev ++ ev')
      | (OutOfFuel, ev') => (Normal NoFuel, ev ++ ev')
      | (Left lastError, ev') =>
          match applyErrorInterceptors f (errorInterceptors g) lastError with
          | (Normal VNull, ev'') => (Normal Null, ev ++ ev' ++ ev'')
          | (Normal processedError, ev'') => (Throw processedError, ev ++ ev' ++ ev'')
          | (Throw x, ev'') => (Throw x, ev ++ ev' ++ ev'')
          end
      end
  end.

(** [createHttpClient(customConfig)]: the configuration the verbs close
    over. *)
Definition createHttpClient (apiUrl : string) (customConfig : Partial) : RequestConfig :=
  spread (DEFAULT_CONFIG apiUrl) customConfig.

(** The verbs; [data] is the text [JSON.stringify] produced. *)
Definition with_method (options : Partial) (m : string) (b : option string) : Partial :=
  mkPartial (p_baseURL options) (p_timeout options) (p_headers options)
    (p_retries options) (p_retryDelay options) (p_cache options)
    (p_credentials options) (Some m)
    (match b with Some d => Some d | None => p_body options end).

Definition get f g config net (url : string) (options : Partial) :=
  request f g config net url (with_method options "GET" None).
Definition post f g config net (url data : string) (options : Partial) :=
  request f g config net url (with_method options "POST" (Some data)).
Definition put f g config net (url data : string) (options : Partial) :=
  request f g config net url (with_method options "PUT" (Some data)).
Definition patch f g config net (url data : string) (options : Partial) :=
  request f g config net url (with_method options "PATCH" (Some data)).
Definition delete f g config net (url : string) (options : Partial) :=
  request f g config net url (with_method options "DELETE" None).

(** *** What the module registers when it is loaded *)

(** The state of the browser that the three interceptors of the module
    read: [localStorage.getItem('auth_token')] and
    [window.location.pathname]. *)
Record Browser : Type := mkBrowser {
  auth_token : option string;
  pathname : string
}.

(** The request interceptor: it adds the [Authorization] header when there
    is a token. *)
Definition authInterceptor (b : Browser) (config : RequestConfig) : RequestConfig :=
  match auth_token b with
  | Some token =>
      if String.eqb token "" then config
      else mkRequestConfig (baseURL config) (timeout config)
             (set_header (headers config) "Authorization" ("Bearer " ++ token)%string)
             (retries config) (retryDelay config) (cache config)
             (credentials config) (method config) (body config)
  | None => config
  end.

(** The error interceptor: a 401 met outside the login page is handled (the
    page is redirected) and [null] is returned. *)
Definition redirectInterceptor (b : Browser) (error : Value) : Value :=
  match error with
  | VApiError e =>
      if (status e =? 401)%Z && negb (includes (pathname b) "/login") then VNull
      else error
  | _ => error
  end.

(** The three function objects, numbered in the order of their
    registration; the response interceptor returns the response. *)
Definition moduleFunctions (b : Browser) : Functions :=
  mkFunctions
    (fun i config => Normal (if Nat.eqb i 0 then authInterceptor b config else config))
    (fun _ response => Normal response)
    (fun i error => Normal (if Nat.eqb i 2 then redirectInterceptor b error else error)).

Definition moduleRegistries : Registries :=
  fst (addErrorInterceptor 2%nat
         (fst (addResponseInterceptor 1%nat
                 (fst (addRequestInterceptor 0%nat (mkRegistries [] [] [])))))).

(** *** Speaking of the three chains one at a time *)

Inductive Chain : Type := RequestChain | ResponseChain | ErrorChain.

Definition registry (c : Chain) (g : Registries) : list Ref :=
  match c with
  | RequestChain => requestInterceptors g
  | ResponseChain => responseInterceptors g
  | ErrorChain => errorInterceptors g
  end.

Definition addInterceptor (c : Chain)
  : Ref -> Registries -> Registries * (Registries -> Registries) :=
  match c with
  | RequestChain => addRequestInterceptor
  | ResponseChain => addResponseInterceptor
  | ErrorChain => addErrorInterceptor
  end.

(** The number of calls of [fetch] in a run. *)
Fixpoint fetchCount (ev : list Event) : nat :=
  match ev with
  | [] => O
  | CallFetch _ _ :: ev' => S (fetchCount ev')
  | _ :: ev' => fetchCount ev'
  end.

(** The error interceptors called in a run, in order. *)
Fixpoint errorCalls (ev : list Event) : list Ref :=
  match ev with
  | [] => []
  | CallErrorInterceptor i :: ev' => i :: errorCalls ev'
  | _ :: ev' => errorCalls ev'
  end.


Definition isApiError (v : Value) : bool :=
  match v with
  | VApiError _ => true
  | _ => false
  end.

End Http.

(** ** Concrete responses, interceptors and requests *)

Module Scenario.

Definition jsonResponse (status : Z) (body : Json) : Response :=
  mkResponse status "" (Some "application/json")
    [("content-type", "application/json")]
    (Normal body) (Normal (json_text body)) (Normal (mkBlob (json_text body))).

Definition notFound : Response := jsonResponse 404 (mkJson None "{}").

Definition unauthorized : Response :=
  jsonResponse 401 (mkJson (Some "Bad credentials") "{ message: 'Bad credentials' }").

Definition SyntaxError : RawError :=
  mkRawError "SyntaxError" "Unexpected token < in JSON at position 0".


Definition typed (contentType : string) (body : string) : Response :=
  mkResponse 200 "OK" (Some contentType) [("content-type", contentType)]
    (Throw SyntaxError) (Normal body) (Normal (mkBlob body)).

Definition client : Http.RequestConfig :=
  Http.createHttpClient "https://api.example.com" Http.no_options.

Definition withRetries (n : Z) : Http.Partial :=
  Http.mkPartial None None None (Some n) None None None None None.

(** Interceptors that hand on what they get. *)
Definition passive : Http.Functions :=
  Http.mkFunctions (fun _ c => Normal c) (fun _ e => Normal e) (fun _ v => Normal v).

Definition boom : Http.Value := VError (mkRawError "Error" "boom").

(** Request interceptor 0 throws; every other interceptor is passive. *)
Definition throwingRequest : Http.Functions :=
  Http.mkFunctions
    (fun i c => if Nat.eqb i 0 then Throw boom else Normal c)
    (fun _ e => Normal e) (fun _ v => Normal v).

(** Response interceptor 0 throws. *)
Definition throwingResponse : Http.Functions :=
  Http.mkFunctions
    (fun _ c => Normal c)
    (fun i e => if Nat.eqb i 0 then Throw boom else Normal e)
    (fun _ v => Normal v).

(** Error interceptor 0 throws, 1 returns [null], the others hand the error
    on. *)
Definition handlingErrors : Http.Functions :=
  Http.mkFunctions
    (fun _ c => Normal c) (fun _ e => Normal e)
    (fun i v => if Nat.eqb i 0 then Throw boom
                else if Nat.eqb i 1 then Normal VNull else Normal v).

(** A server that never answers, and a caller's signal that never fires. *)
Definition silentWorld (rejection : Value Client.ApiError -> Value Client.ApiError)
  : Client.World :=
  Client.mkWorld (fun _ => Client.Silent) (fun _ => 0%float) rejection 10000.

Definition idleSignal : Client.AbortSignal := Client.mkAbortSignal None VUndefined.

Definition answering (r : Response) : Client.World :=
  Client.mkWorld (fun _ => Client.Replies 20 r) (fun _ => 0.5%float)
                 Client.abortErrorOf 10000.

End Scenario.

(** ** More of [src/api/client.js] *)

Module ClientRest.
Import Client.

(** [retries] and [timeout] as [apiRequest] destructures them. *)
Definition retries_of (o : Options) : Z :=
  match retries o with Some r => r | None => 1%Z end.


(** The delays of [n] consecutive retries, the first of them being retry
    number [currentRetry + 1] and drawing the [randoms]-th value of
    [Math.random]. *)
Definition waits (w : World) (currentRetry : Z) (randoms : nat) (n : nat)
  : list float :=
  map (fun k => getRetryDelay (currentRetry + 1 + Z.of_nat k) (random w (randoms + k)))
      (seq 0 n).

(** [instanceof ApiError] *)
Definition isApiError (v : Value ApiError) : bool :=
  match v with
  | VApiError _ => true
  | _ => false
  end.




End ClientRest.

(** ** More concrete answers *)

Module Cases.

Definition gone : Response :=
  mkResponse 404 "Not Found" (Some "text/plain") []
             (Throw Scenario.SyntaxError) (Normal "gone") (Normal (mkBlob "gone")).

Definition tooMany : Response :=
  mkResponse 429 "Too Many Requests" (Some "text/plain") []
             (Throw Scenario.SyntaxError) (Normal "slow down")
             (Normal (mkBlob "slow down")).

Definition unavailable : Response :=
  mkResponse 503 "Service Unavailable" (Some "text/plain") []
             (Throw Scenario.SyntaxError) (Normal "later") (Normal (mkBlob "later")).

Definition offline : RawError := mkRawError "TypeError" "Failed to fetch".



(** The same network as [utils/http.js] sees it, pass by pass. *)
Definition flakyNet (attempt : Z) : Completion Response Http.Value :=
  if (attempt <? 2)%Z then Throw (VError offline)
  else Normal (Scenario.typed "text/plain" "hi").

End Cases.

(** ** Header objects *)

Module Headers.

(** [headers[key]]: the value of a property of a header object, if it has
    that property. *)
Fixpoint get (h : list (string * string)) (key : string) : option string :=
  match h with
  | [] => None
  | (k, v) :: h' => if String.eqb k key then Some v else get h' key
  end.

(** An object has each of its property names once. *)
Definition wellFormed (h : list (string * string)) : Prop := NoDup (map fst h).

End Headers.

(** ** The request headers of [src/api/client.js] *)

Module ClientHeaders.

(** What [localStorage.getItem('app-storage')] and [JSON.parse] make of the
    stored session: no item (or an empty one), an exception of either call,
    or a document, seen through [parsed?.state?.user?.token] (a string, when
    it is there). *)
Inductive Stored : Type :=
| NoItem
| Unreadable (e : RawError)
| Session (token : option string).

(** [getAuthToken]: [null] is [None]. *)
Definition getAuthToken (s : Stored) : option string :=
  match s with
  | Session (Some token) => if String.eqb token "" then None else Some token
  | _ => None
  end.

(** [addAuthHeaders] *)
Definition addAuthHeaders (s : Stored) (headers : list (string * string))
  : list (string * string) :=
  match getAuthToken s with
  | Some token => Http.set_header headers "Authorization" ("Bearer " ++ token)%string
  | None => headers
  end.

(** [DEFAULT_OPTIONS.headers] *)
Definition DEFAULT_headers : list (string * string) :=
  [("Content-Type", "application/json")].

(** [requestHeaders] of [executeRequest]:
    [{ ...DEFAULT_OPTIONS.headers, ...headers, ...(auth ? addAuthHeaders(headers) : {}) }] *)
Definition requestHeaders (s : Stored) (auth : bool) (headers : list (string * string))
  : list (string * string) :=
  Http.spread_headers
    (Http.spread_headers DEFAULT_headers headers)
    (if auth then addAuthHeaders s headers else []).

End ClientHeaders.

(** ** [src/hooks/useApi.js] *)

Module Hook.
Import Client.

(** The arguments [execute] is called with and hands on to [apiCall]:
    primitives, arrays, plain objects (their own properties, in order) and
    abort signals (objects without own enumerable properties). *)
#[warnings="-register-all"]
Inductive Arg : Type :=
| AUndefined
| ANull
| AString (s : string)
| ANumber (n : Z)
| AArray (items : list Arg)
| AObject (props : list (string * Arg))
| ASignal (controller : nat).

Definition Props : Type := list (string * Arg).

(** [object[key]], if the object has that property. *)
Fixpoint getProp (p : Props) (key : string) : option Arg :=
  match p with
  | [] => None
  | (k, v) :: p' => if String.eqb k key then Some v else getProp p' key
  end.

(** An object has each of its property names once. *)
Definition wellFormed (p : Props) : Prop := NoDup (map fst p).

(** [object[key] = v] *)
Fixpoint setProp (p : Props) (key : string) (v : Arg) : Props :=
  match p with
  | [] => [(key, v)]
  | (k', v') :: p' =>
      if String.eqb k' key then (k', v) :: p' else (k', v') :: setProp p' key v
  end.

(** [{ ...a, ...b }] *)
Definition spread (a b : Props) : Props :=
  fold_left (fun acc kv => setProp acc (fst kv) (snd kv)) b a.

Definition indexed (items : list Arg) : Props :=
  combine (map (fun k => NilEmpty.string_of_uint (Nat.to_uint k))
               (seq 0 (List.length items)))
          items.

(** The own enumerable properties that [...value] copies. *)
Definition ownProps (value : Arg) : Props :=
  match value with
  | AObject props => props
  | AArray items => indexed items
  | AString s => indexed (map (fun ch => AString (String ch EmptyString))
                              (list_ascii_of_string s))
  | _ => []
  end.

(** [options && typeof options === 'object' && !Array.isArray(options)] *)
Definition isOptionsObject (options : Arg) : bool :=
  match options with
  | AObject _ | ASignal _ => true
  | _ => false
  end.

(** [apiCallArgs] of [execute]; [newController] is the identity of the
    controller that [api.createAbortController()] returned. *)
Definition apiCallArgs (args : list Arg) (newController : nat) : list Arg :=
  let options := last args AUndefined in
  if isOptionsObject options
  then removelast args
       ++ [AObject (setProp (ownProps options) "signal" (ASignal newController))]
  else args ++ [AObject [("signal", ASignal newController)]].

(** A parameter of a function called with [args]. *)
Definition parameter (k : nat) (args : list Arg) : Arg := nth k args AUndefined.

(** A parameter with a default value. *)
Definition or_default (value default : Arg) : Arg :=
  match value with
  | AUndefined => default
  | _ => value
  end.

(** The options object that the verbs of [api] call [apiRequest] with. *)
Definition api_get (options : Arg) : Props :=
  spread [("method", AString "GET")] (ownProps (or_default options (AObject []))).

Definition api_post (data options : Arg) : Props :=
  spread [("method", AString "POST"); ("body", data)]
         (ownProps (or_default options (AObject []))).

Definition api_put (data options : Arg) : Props :=
  spread [("method", AString "PUT"); ("body", data)]
         (ownProps (or_default options (AObject []))).

Definition api_delete (options : Arg) : Props :=
  spread [("method", AString "DELETE")] (ownProps (or_default options (AObject []))).

(** The [apiCall] of [useApiGet], [useApiPost], [useApiPut] and
    [useApiDelete], as the options object [apiRequest] receives when the
    function is called with [args]. *)
Definition useApiGet_apiCall (params : Arg) (args : list Arg) : Props :=
  let callParams := or_default (parameter 0 args) params in
  api_get (AObject [("params", callParams)]).

Definition useApiPost_apiCall (args : list Arg) : Props :=
  api_post (parameter 0 args) (parameter 1 args).

Definition useApiPut_apiCall (args : list Arg) : Props :=
  api_put (parameter 0 args) (parameter 1 args).

Definition useApiDelete_apiCall (args : list Arg) : Props :=
  api_delete (parameter 0 args).

(** *** [useApi] *)

(** The state of the hook, each variable at the value its setter was last
    called with; [null] data is [None], [null] error is [VNull]. *)
Record HookState : Type := mkHookState {
  st_data : option Payload;
  st_loading : bool;
  st_error : Value ApiError;
  st_controller : option nat
}.

(** What the hook is given: [apiCall] (one of the verbs of [api], so that
    it resolves with an envelope, rejects, or never settles: [None]) and
    the two optional callbacks. *)
Record Callbacks : Type := mkCallbacks {
  apiCall : list Arg -> option (Completion Success (Value ApiError));
  onSuccess : option (Success -> Completion unit (Value ApiError));
  onError : option (Value ApiError -> Completion unit (Value ApiError))
}.

(** What [execute] resolves with: the response, or
    [{ status: ApiStatus.CANCELED }]. *)
Inductive Result : Type :=
| Response (r : Success)
| CanceledStatus.

Inductive Effect : Type :=
| Abort (controller : nat)
| CallApi (args : list Arg)
| OnSuccess (r : Success)
| OnError (err : Value ApiError)
| LoggerError (err : Value ApiError).

(** [err.type === ErrorType.CANCELED] for a value that has properties. *)
Definition isCanceled (err : Value ApiError) : bool :=
  match err with
  | VApiError e => ErrorType_eqb (type e) CANCELED
  | _ => false
  end.

(** The reports of a failure among the calls made: those of [onError] and
    of [logger.error]. *)
Definition reports (ev : list Effect) : list Effect :=
  filter (fun e => match e with
                   | OnError _ | LoggerError _ => true
                   | _ => false
                   end) ev.

(** The [catch] block of [execute]. *)
Definition catchBlock (h : Callbacks) (st : HookState) (err : Value ApiError)
  : Completion Result (Value ApiError) * HookState * list Effect :=
  match err with
  | VUndefined | VNull => (Throw (VError TypeError_property), st, [])
  | _ =>
      if isCanceled err then (Normal CanceledStatus, st, [])
      else
        let st' := mkHookState (st_data st) false err (st_controller st) in
        match onError h with
        | Some callback =>
            match callback err with
            | Normal _ => (Throw err, st', [OnError err])
            | Throw x => (Throw x, st', [OnError err])
            end
        | None => (Throw err, st', [LoggerError err])
        end
  end.

(** The report the [catch] block makes of [err]. *)
Definition report (h : Callbacks) (err : Value ApiError) : Effect :=
  match onError h with
  | Some _ => OnError err
  | None => LoggerError err
  end.

(** What [execute] throws after it reported [err]: [err] itself, unless
    [onError] threw. *)
Definition rethrown (h : Callbacks) (err : Value ApiError) : Value ApiError :=
  match onError h with
  | Some callback =>
      match callback err with
      | Normal _ => err
      | Throw x => x
      end
  | None => err
  end.

(** The [finally] block: [setController(c => (c === newController ? null : c))] *)
Definition finallyBlock (newController : nat) (st : HookState) : HookState :=
  match st_controller st with
  | Some c =>
      if Nat.eqb c newController
      then mkHookState (st_data st) (st_loading st) (st_error st) None
      else st
  | None => st
  end.

(** [execute(...args)] in the state [st]: how the promise settles ([None]
    when it never does), the state it leaves and what it called. *)
Definition execute (h : Callbacks) (newController : nat) (st : HookState)
    (args : list Arg)
  : option (Completion Result (Value ApiError)) * HookState * list Effect :=
  let aborted := match st_controller st with
                 | Some c => [Abort c]
                 | None => []
                 end in
  let st1 := mkHookState (st_data st) true VNull (Some newController) in
  let callArgs := apiCallArgs args newController in
  match apiCall h callArgs with
  | None => (None, st1, aborted ++ [CallApi callArgs])
  | Some (Normal response) =>
      let st2 := mkHookState (Some (success_data response)) false
                             (st_error st1) (st_controller st1) in
      match onSuccess h with
      | Some callback =>
          match callback response with
          | Normal _ =>
              (Some (Normal (Response response)), finallyBlock newController st2,
               aborted ++ [CallApi callArgs; OnSuccess response])
          | Throw x =>
              let '(result, st3, ev) := catchBlock h st2 x in
              (Some result, finallyBlock newController st3,
               aborted ++ CallApi callArgs :: OnSuccess response :: ev)
          end
      | None =>
          (Some (Normal (Response response)), finallyBlock newController st2,
           aborted ++ [CallApi callArgs])
      end
  | Some (Throw err) =>
      let '(result, st3, ev) := catchBlock h st1 err in
      (Some result, finallyBlock newController st3,
       aborted ++ CallApi callArgs :: ev)
  end.

End Hook.

(** Hooks and states to run [execute] on. *)

Module HookCases.
Import Client Hook.


(** The network is down and the hook has no callback. *)
Definition failing : Callbacks :=
  mkCallbacks (fun _ => Some (Throw (VError (mkRawError "TypeError" "Failed to fetch"))))
              None None.


(** The state of the hook before the first call. *)
Definition idle : HookState := mkHookState None false VNull None.

End HookCases.

(** ** [src/utils/logger.js] *)

Module Logger.

(** [LogLevel] *)
Inductive LogLevel : Type := DEBUG | INFO | WARN | ERROR.

(** [logLevelPriority] *)
Definition logLevelPriority (level : LogLevel) : Z :=
  match level with
  | DEBUG => 0
  | INFO => 1
  | WARN => 2
  | ERROR => 3
  end.

(** [currentLogLevel]; [DEV] is [import.meta.env.DEV]. *)
Definition currentLogLevel (DEV : bool) : LogLevel := if DEV then DEBUG else INFO.

(** [shouldLog] *)
Definition shouldLog (DEV : bool) (level : LogLevel) : bool :=
  (logLevelPriority (currentLogLevel DEV) <=? logLevelPriority level)%Z.

(** What the logger reaches: a method of [console], named by its level,
    with a message; [captureMessage] of Sentry with a message; or a
    function of [web-vitals] ([getCLS], [getFID], [getLCP]) that is handed
    [console.log] as its callback. *)
Inductive Sink : Type :=
| Console (method : LogLevel) (message : string)
| Sentry (message : string)
| WebVitals (metric : string).

(** [sendLog]: what it emits. *)
Definition sendLog (DEV : bool) (level : LogLevel) (message : string) : list Sink :=
  if DEV then [Console level message]
  else match level with
       | ERROR => [Sentry message]
       | _ => []
       end.

(** [logger.debug], [logger.info], [logger.warn] and [logger.error]: the
    method of the level [level]. *)
Definition log (DEV : bool) (level : LogLevel) (message : string) : list Sink :=
  if shouldLog DEV level then sendLog DEV level message else [].

(** [logger.performance]; [PROD] is [import.meta.env.PROD]. *)
Definition performance (DEV PROD : bool) (label : string) : list Sink :=
  sendLog DEV INFO ("Performance: " ++ label)%string
  ++ (if PROD then [WebVitals "getCLS"; WebVitals "getFID"; WebVitals "getLCP"]
      else []).

End Logger.

(** * Properties of [src/api/client.js] *)

Module ClientFacts.
Import Client.

Local Open Scope Z_scope.

(** ** The error classifier *)

Lemma ErrorType_eqb_eq (a b : ErrorType) : ErrorType_eqb a b = true <-> a = b.
Proof.
  split.
  - destruct a, b; intros H; try reflexivity; discriminate H.
  - intros ->. destruct b; reflexivity.
Qed.

Lemma mapStatusToErrorType_server (s : Z) :
  mapStatusToErrorType s = SERVER <-> 500 <= s.
Proof.
  unfold mapStatusToErrorType.
  destruct (500 <=? s) eqn:H5.
  - split; [intros _; lia | reflexivity].
  - split; [| lia].
    destruct ((s =? 401) || (s =? 403)); [discriminate |].
    destruct (s =? 404); [discriminate |].
    destruct (s =? 422); discriminate.
Qed.

(** C7.  [mapStatusToErrorType] gives every status code exactly one kind:
    [SERVER] from 500 on, [AUTH] for 401 and 403, [NOT_FOUND] for 404,
    [VALIDATION] for 422 and [UNKNOWN] for every other code.  Being a total
    function it cannot throw. *)
Theorem mapStatusToErrorType_spec (s : Z) :
  (500 <= s /\ mapStatusToErrorType s = SERVER)
  \/ ((s = 401 \/ s = 403) /\ mapStatusToErrorType s = AUTH)
  \/ (s = 404 /\ mapStatusToErrorType s = NOT_FOUND)
  \/ (s = 422 /\ mapStatusToErrorType s = VALIDATION)
  \/ ((s < 500 /\ s <> 401 /\ s <> 403 /\ s <> 404 /\ s <> 422)
      /\ mapStatusToErrorType s = UNKNOWN).
Proof.
  unfold mapStatusToErrorType.
  destruct (Z.leb_spec 500 s) as [H5 | H5]; [left; split; [lia | reflexivity] |].
  destruct (Z.eqb_spec s 401) as [H1 | H1];
    [right; left; split; [left; exact H1 | reflexivity] |].
  destruct (Z.eqb_spec s 403) as [H3 | H3];
    [right; left; split; [right; exact H3 | reflexivity] |].
  cbn [orb].
  destruct (Z.eqb_spec s 404) as [H4 | H4];
    [right; right; left; split; [exact H4 | reflexivity] |].
  destruct (Z.eqb_spec s 422) as [H2 | H2];
    [right; right; right; left; split; [exact H2 | reflexivity] |].
  right; right; right; right. split; [lia | reflexivity].
Qed.

(** ** The retry policy *)

(** The decision table of [shouldRetry]. *)
Lemma shouldRetry_table (error : ApiError) (retryCount maxRetries : Z) :
  shouldRetry error retryCount maxRetries
  = (retryCount <? maxRetries)
    && match type error with
       | NETWORK | TIMEOUT => true
       | SERVER => 500 <=? statusCode error
       | _ => false
       end.
Proof.
  unfold shouldRetry.
  destruct (Z.leb_spec maxRetries retryCount) as [Hcap | Hcap];
    destruct (Z.ltb_spec retryCount maxRetries) as [Hlt | Hge];
    try (exfalso; lia); try reflexivity.
  destruct (type error); reflexivity.
Qed.

(** C3, as the code has it.  [shouldRetry] answers [true] exactly when the
    attempt count is below the cap and the error is of kind [NETWORK] or
    [TIMEOUT], or of kind [SERVER] with a status code of 500 or more.  So it
    is [false] from [retryCount >= maxRetries] on, [false] for [AUTH],
    [VALIDATION], [CANCELED], [NOT_FOUND] and [UNKNOWN] at any count, and for
    [SERVER] it follows the status code the error carries. *)
Theorem shouldRetry_spec (error : ApiError) (retryCount maxRetries : Z) :
  shouldRetry error retryCount maxRetries = true
  <-> retryCount < maxRetries
      /\ (type error = NETWORK \/ type error = TIMEOUT
          \/ (type error = SERVER /\ 500 <= statusCode error)).
Proof.
  rewrite shouldRetry_table, andb_true_iff, Z.ltb_lt.
  split; intros [Hcap H]; (split; [exact Hcap |]).
  - destruct (type error); try discriminate H; auto.
    right; right. split; [reflexivity | apply Z.leb_le; exact H].
  - destruct H as [H | [H | [H Hs]]]; rewrite H; try reflexivity.
    apply Z.leb_le; exact Hs.
Qed.

(** C3 as stated fails: an error of kind [SERVER] whose status code is
    below 500 is not retried although the cap is not reached. *)
Lemma shouldRetry_server_below_500 :
  type (mkApiError "upstream" SERVER 0 (DataText "")) = SERVER
  /\ shouldRetry (mkApiError "upstream" SERVER 0 (DataText "")) 0 1 = false.
Proof. split; reflexivity. Qed.

(** An error of kind [SERVER] built by [mapStatusToErrorType] passes the
    guard on the status code. *)
Lemma shouldRetry_classified_server (message : string) (s : Z) (d : Payload)
    (retryCount maxRetries : Z) :
  mapStatusToErrorType s = SERVER ->
  shouldRetry (mkApiError message (mapStatusToErrorType s) s d) retryCount maxRetries
  = (retryCount <? maxRetries).
Proof.
  intros H. pose proof (proj1 (mapStatusToErrorType_server s) H) as Hs.
  unfold shouldRetry. cbn [type statusCode]. rewrite H. cbn.
  destruct (Z.leb_spec maxRetries retryCount); destruct (Z.ltb_spec retryCount maxRetries);
    try lia; try reflexivity.
Qed.

(** ** The backoff *)

(** C8.  The jitter that [getRetryDelay] adds is
    [exponentialDelay * 0.2 * (Math.random() - 0.5)], a tenth of the
    exponential delay at most, where the comment above it says 20%.  At
    the smallest draw, 0, the delay of the retry counts 1 to 5 is 0.9 times
    [min(3000, 300 * 2^n)] and at the largest draw 1.1 times it (as
    rounded): 540 and 660 ms for the first retry, where a jitter of 20%
    gives 480 and 720 ms. *)
Theorem getRetryDelay_jitter_is_a_tenth :
  getRetryDelay 1 0 = 540%float
  /\ map (fun n => getRetryDelay n 0) [1; 2; 3; 4; 5]
     = [540; 1080; 2160; 2700; 2700]%float
  /\ map (fun n => getRetryDelay n largestDraw) [1; 2; 3; 4; 5]
     = [660; 1320; 2640; 3300; 3300]%float
  /\ map (fun n => Math_min 3000 (300 * Math_pow2 n)%float) [1; 2; 3; 4; 5]
     = [600; 1200; 2400; 3000; 3000]%float.
Proof.
  repeat split; vm_compute; reflexivity.
Qed.

(** ** [executeRequest] *)

Section Attempts.

Variable w : World.
Variable o : Options.
Variable timeout retries : Z.

(** The retries are bounded: fuel above the retries still allowed is
    never used up, so [executeRequest] returns. *)
Lemma catchBlock_Again (error : Value ApiError) (n : Z) :
  catchBlock error n retries = Again -> n < retries.
Proof.
  unfold catchBlock. destruct (get_name error) as [name | x]; [| discriminate].
  destruct (match name with Some n0 => (n0 =? "AbortError")%string | None => false end);
    [discriminate |].
  destruct error as [| | s | r | e];
    match goal with
    | |- context [shouldRetry ?a n retries] =>
        destruct (shouldRetry a n retries) eqn:E; [| discriminate]
    end;
    intros _; rewrite shouldRetry_table in E; apply andb_prop in E; lia.
Qed.

Lemma executeRequest_returns (fuel : nat) :
  forall st : State,
    Z.max 0 (retries - currentRetry st) < Z.of_nat fuel ->
    fst (executeRequest fuel w o timeout retries st) <> OutOfFuel.
Proof.
  induction fuel as [| fuel IH]; intros st Hfuel; [lia |].
  cbn [executeRequest].
  destruct (fetch w (fetches st) (now st) (requestSignal o timeout (timer st)))
    as [t settled |]; [| cbn; discriminate].
  set (attempt := match settled with Normal r => handleResponse r | Throw v => Throw v end).
  destruct attempt as [r | error]; [cbn; discriminate |].
  cbn [currentRetry].
  destruct (catchBlock error (currentRetry st) retries) eqn:E; [cbn; discriminate |].
  apply catchBlock_Again in E.
  apply IH. unfold backoff. cbn [currentRetry]. lia.
Qed.

(** What [fetch] rejects with: an error object of the network, or what the
    platform makes of the abort reason of the signal it was given. *)
Lemma fetch_rejection (k : nat) (t0 t : Z) (sig : option (Z * Value ApiError))
    (v : Value ApiError) :
  fetch w k t0 sig = SettledAt t (Throw v) ->
  (exists e, v = VError e)
  \/ (exists a why, sig = Some (a, why) /\ v = abortRejection w why).
Proof.
  unfold fetch. intros H.
  destruct (server w k) as [d r | d e |]; destruct sig as [[a why] |];
    repeat match type of H with
           | context [if ?c then _ else _] => destruct c
           end;
    inversion H; subst; eauto.
Qed.

Lemma requestSignal_reason (t : Timer) (a : Z) (why : Value ApiError) :
  requestSignal o timeout t = Some (a, why) -> In why (abort_reasons o).
Proof.
  unfold requestSignal, abort_reasons, controller_signal.
  destruct (signal o) as [s |].
  - destruct (abortAt s); intros H; inversion H; subst. right; left; reflexivity.
  - destruct t; intros H; inversion H; subst; left; reflexivity.
Qed.



Hypothesis abort_is_object :
  Forall (fun why => nullish (abortRejection w why) = false) (abort_reasons o).



End Attempts.

(** [apiRequest] returns: the fuel it starts with is enough. *)
Lemma apiRequest_returns (w : World) (o : Options) :
  fst (apiRequest w o) <> OutOfFuel.
Proof.
  unfold apiRequest. apply executeRequest_returns. cbn [currentRetry]. lia.
Qed.


(** A response with one of the statuses 400, 401, 403, 404 and 422 whose
    body can be read ends [executeRequest] at once: no retry, whatever
    [retries] is. *)
Lemma executeRequest_terminal_status (w : World) (o : Options) (timeout retries : Z)
    (fuel : nat) (st : State) (t : Z) (r : Response) (d : Payload) :
  fetch w (fetches st) (now st) (requestSignal o timeout (timer st))
  = SettledAt t (Normal r) ->
  parseBody r = Normal d ->
  In (status r) [400; 401; 403; 404; 422] ->
  exists e st',
    executeRequest (S fuel) w o timeout retries st = (Rejected (VApiError e), st')
    /\ statusCode e = status r
    /\ fetches st' = S (fetches st)
    /\ delays st' = delays st.
Proof.
  intros Hf Hb Hs. cbn [executeRequest]. rewrite Hf.
  unfold handleResponse. rewrite Hb.
  assert (Hok : ok r = false).
  { unfold ok. cbn in Hs.
    destruct Hs as [H | [H | [H | [H | [H | []]]]]]; rewrite <- H; reflexivity. }
  rewrite Hok. cbn [negb].
  assert (Hno : forall m, shouldRetry
            (mkApiError m (mapStatusToErrorType (status r)) (status r) d)
            (currentRetry st) retries = false).
  { intros m. rewrite shouldRetry_table. cbn [type statusCode]. cbn in Hs.
    destruct Hs as [H | [H | [H | [H | [H | []]]]]]; rewrite <- H; cbn;
      apply andb_false_r. }
  unfold catchBlock. cbn [get_name]. cbn [String.eqb Ascii.eqb Bool.eqb].
  cbn [currentRetry]. rewrite Hno.
  eexists; eexists. split; [reflexivity |]. cbn. repeat split.
Qed.

(** ** The two abort sources *)

(** Once the caller supplies a signal, [timeout] no longer has any part in
    what [apiRequest] does: the signal given to [fetch] is the caller's. *)
Lemma executeRequest_ignores_timeout (w : World) (o : Options) (retries : Z)
    (s : AbortSignal) (fuel : nat) :
  signal o = Some s ->
  forall (t1 t2 : Z) (st1 st2 : State),
    same_but_timer st1 st2 ->
    fst (executeRequest fuel w o t1 retries st1)
    = fst (executeRequest fuel w o t2 retries st2)
    /\ same_but_timer (snd (executeRequest fuel w o t1 retries st1))
                      (snd (executeRequest fuel w o t2 retries st2)).
Proof.
  intros Hs. induction fuel as [| fuel IH]; intros t1 t2 st1 st2 Hst.
  - cbn. split; [reflexivity | exact Hst].
  - destruct Hst as (Hn & Hc & Hf & Hr & Hd).
    cbn [executeRequest].
    assert (Hsig : requestSignal o t1 (timer st1) = requestSignal o t2 (timer st2))
      by (unfold requestSignal; rewrite Hs; reflexivity).
    rewrite Hsig, Hn, Hf.
    destruct (fetch w (fetches st2) (now st2) (requestSignal o t2 (timer st2)))
      as [t settled |].
    + destruct (match settled with Normal r => handleResponse r | Throw v => Throw v end)
        as [r | error].
      * cbn. repeat split; assumption.
      * cbn [currentRetry]. rewrite Hc.
        destruct (catchBlock error (currentRetry st2) retries).
        -- cbn. repeat split; assumption.
        -- apply IH. unfold backoff, same_but_timer. cbn.
           rewrite ?Hc, ?Hr, ?Hd. repeat split; reflexivity.
    + cbn. repeat split; assumption.
Qed.

Lemma apiRequest_ignores_timeout (w : World) (s : AbortSignal) (r : option Z)
    (t1 t2 : option Z) :
  fst (apiRequest w (mkOptions t1 r (Some s)))
  = fst (apiRequest w (mkOptions t2 r (Some s))).
Proof.
  unfold apiRequest. cbn [Client.timeout Client.retries].
  set (o1 := mkOptions t1 r (Some s)). set (o2 := mkOptions t2 r (Some s)).
  set (n := S (Z.to_nat match r with Some r0 => r0 | None => 1 end)).
  set (k := match r with Some r0 => r0 | None => 1 end).
  enough (E : forall ta tb st, fst (executeRequest n w o1 ta k st)
                               = fst (executeRequest n w o2 tb k st)) by apply E.
  clear. intros ta tb st.
  transitivity (fst (executeRequest n w o1 tb k st)).
  - apply (@executeRequest_ignores_timeout w o1 k s n eq_refl ta tb st st).
    repeat split.
  - clear. revert st. induction n as [| n IH]; intros st; [reflexivity |].
    cbn [executeRequest]. unfold requestSignal at 1 2. cbn [signal].
    destruct (fetch w (fetches st) (now st) _) as [t settled |]; [| reflexivity].
    destruct (match settled with Normal r0 => handleResponse r0 | Throw v => Throw v end);
      [reflexivity |].
    destruct (catchBlock _ _ _); [reflexivity | apply IH].
Qed.

(** On a platform whose aborted [fetch] rejects with an [AbortError] that
    carries the abort reason as its message, a request without a signal of
    the caller that the server leaves unanswered is rejected, when
    [timeout] has passed, with an error of kind [TIMEOUT]. *)
Lemma timeout_yields_TIMEOUT (w : World) (t : option Z) (r : option Z) :
  server w 0%nat = Silent ->
  abortRejection w (VString "timeout") = abortErrorOf (VString "timeout") ->
  exists e st,
    apiRequest w (mkOptions t r None) = (Rejected (VApiError e), st)
    /\ type e = TIMEOUT
    /\ now st = Z.max 0 (match t with Some t0 => t0 | None => DEFAULT_timeout w end)
    /\ fetches st = 1%nat.
Proof.
  intros Hsrv Hrej. unfold apiRequest. cbn [Client.timeout Client.retries].
  cbn [executeRequest fetches now timer]. unfold requestSignal. cbn [signal controller_signal].
  unfold fetch. rewrite Hsrv, Hrej. cbn.
  eexists; eexists. split; [reflexivity |]. cbn. repeat split. lia.
Qed.

(** On the same platform, the abort of the caller's signal, with a reason
    other than ["timeout"], gives an error of kind [CANCELED]. *)
Lemma caller_abort_yields_CANCELED (w : World) (t r : option Z) (a : Z) (why : string) :
  server w 0%nat = Silent ->
  abortRejection w (VString why) = abortErrorOf (VString why) ->
  why <> "timeout" ->
  exists e st,
    apiRequest w (mkOptions t r (Some (mkAbortSignal (Some a) (VString why))))
    = (Rejected (VApiError e), st)
    /\ type e = CANCELED
    /\ now st = Z.max 0 a
    /\ fetches st = 1%nat.
Proof.
  intros Hsrv Hrej Hwhy. unfold apiRequest. cbn [Client.timeout Client.retries].
  cbn [executeRequest fetches now timer]. unfold requestSignal. cbn [signal abortAt reason].
  unfold fetch. rewrite Hsrv, Hrej. cbn.
  destruct (String.eqb_spec why "timeout") as [E | E]; [contradiction |].
  eexists; eexists. split; [reflexivity |]. cbn. repeat split.
Qed.

(** C6, on the code.  A caller passes its own signal, which never fires,
    and [timeout: 100]; the server never answers.  [fetch] was given the
    caller's signal only, so the timer's [controller.abort('timeout')]
    reaches nobody and the request stays pending for ever, whatever an
    aborted [fetch] rejects with.  Without the caller's signal the same
    request is rejected at 100 ms with an error of kind [TIMEOUT] (on a
    platform that rejects with an [AbortError] carrying the reason). *)
Theorem timeout_lost_with_caller_signal
    (rejection : Value ApiError -> Value ApiError) :
  fst (apiRequest (Scenario.silentWorld rejection)
                  (mkOptions (Some 100) None (Some Scenario.idleSignal)))
  = PendingForever
  /\ fst (apiRequest (Scenario.silentWorld abortErrorOf) (mkOptions (Some 100) None None))
     = Rejected (VApiError
                   (mkApiError "Request timed out" TIMEOUT 0
                      (DataOriginal (OriginalError (mkRawError "AbortError" "timeout")))))
  /\ now (snd (apiRequest (Scenario.silentWorld abortErrorOf)
                          (mkOptions (Some 100) None None))) = 100.
Proof. repeat split. Qed.

(** Where an aborted [fetch] rejects with the abort reason itself, the
    string ['timeout'] has no [name]: the [catch] block takes the timeout
    for a network error and retries it. *)
Lemma timeout_with_reason_rejection :
  fst (apiRequest (Scenario.silentWorld abortReason) (mkOptions (Some 100) None None))
  = Rejected (VApiError
                (mkApiError "Network error" NETWORK 0
                   (DataOriginal (OriginalString "timeout"))))
  /\ fetches (snd (apiRequest (Scenario.silentWorld abortReason)
                              (mkOptions (Some 100) None None))) = 2%nat.
Proof. split; vm_compute; reflexivity. Qed.

(** A 404 whose body cannot be read is caught as a [SyntaxError], taken for
    a network error, and retried. *)
Lemma unreadable_404_is_retried :
  fetches (snd (apiRequest
                  (Scenario.answering
                     (mkResponse 404 "Not Found" (Some "application/json") []
                                 (Throw Scenario.SyntaxError) (Normal "<html>")
                                 (Normal (mkBlob "<html>"))))
                  (mkOptions None (Some 1) None))) = 2%nat.
Proof. vm_compute. reflexivity. Qed.

End ClientFacts.

(** * Properties of [src/utils/http.js] *)

Module HttpFacts.
Import Http.

Local Open Scope Z_scope.

(** ** The registries *)

Lemma indexOf_range (l : list Ref) (x : Ref) : -1 <= indexOf l x.
Proof.
  induction l as [| y l IH]; cbn [indexOf]; [lia |].
  destruct (Nat.eqb y x); [lia |].
  destruct (indexOf l x =? -1); lia.
Qed.

Lemma indexOf_absent (l : list Ref) (x : Ref) : ~ In x l -> indexOf l x = -1.
Proof.
  induction l as [| y l IH]; intros Hx; cbn [indexOf]; [reflexivity |].
  destruct (Nat.eqb_spec y x) as [E | E].
  - exfalso. apply Hx. left. exact E.
  - rewrite IH; [reflexivity |]. intros H. apply Hx. right. exact H.
Qed.

Lemma indexOf_first (l1 l2 : list Ref) (x : Ref) :
  ~ In x l1 -> indexOf (l1 ++ x :: l2) x = Z.of_nat (List.length l1).
Proof.
  induction l1 as [| y l1 IH]; intros Hx.
  - cbn. rewrite Nat.eqb_refl. reflexivity.
  - cbn [app indexOf List.length].
    destruct (Nat.eqb_spec y x) as [E | E].
    + exfalso. apply Hx. left. exact E.
    + rewrite IH by (intros H; apply Hx; right; exact H).
      destruct (Z.eqb_spec (Z.of_nat (List.length l1)) (-1)); lia.
Qed.

Lemma splice_one (l1 l2 : list Ref) (x : Ref) :
  splice (l1 ++ x :: l2) (Z.of_nat (List.length l1)) 1 = l1 ++ l2.
Proof.
  unfold splice. rewrite Nat2Z.id.
  rewrite firstn_app, Nat.sub_diag, firstn_all. cbn [firstn].
  rewrite app_nil_r. f_equal.
  rewrite skipn_app, skipn_all2 by lia.
  replace (List.length l1 + 1 - List.length l1)%nat with 1%nat by lia.
  reflexivity.
Qed.

(** The function returned by an [add] takes out the first occurrence and
    keeps the rest in order. *)
Lemma remover_first (l1 l2 : list Ref) (x : Ref) :
  ~ In x l1 -> remover x (l1 ++ x :: l2) = l1 ++ l2.
Proof.
  intros Hx. unfold remover. rewrite indexOf_first by exact Hx.
  destruct (Z.eqb_spec (Z.of_nat (List.length l1)) (-1)) as [E | E]; [lia |].
  cbn [negb]. apply splice_one.
Qed.

Lemma remover_absent (l : list Ref) (x : Ref) : ~ In x l -> remover x l = l.
Proof.
  intros Hx. unfold remover. rewrite indexOf_absent by exact Hx. reflexivity.
Qed.

Lemma remover_twice (l1 l2 : list Ref) (x : Ref) :
  ~ In x l1 -> ~ In x l2 ->
  remover x (remover x (l1 ++ x :: l2)) = remover x (l1 ++ x :: l2).
Proof.
  intros H1 H2. rewrite remover_first by exact H1.
  apply remover_absent. intros H. apply in_app_or in H. tauto.
Qed.

Lemma addInterceptor_fst (c : Chain) (i : Ref) (g : Registries) :
  registry c (fst (addInterceptor c i g)) = registry c g ++ [i]
  /\ forall c', c' <> c -> registry c' (fst (addInterceptor c i g)) = registry c' g.
Proof.
  split; [destruct c; reflexivity |].
  intros c' Hc. destruct c, c'; try reflexivity; contradiction.
Qed.

Lemma addInterceptor_snd (c : Chain) (i : Ref) (g g' : Registries) :
  registry c (snd (addInterceptor c i g) g') = remover i (registry c g')
  /\ forall c', c' <> c -> registry c' (snd (addInterceptor c i g) g') = registry c' g'.
Proof.
  split; [destruct c; reflexivity |].
  intros c' Hc. destruct c, c'; try reflexivity; contradiction.
Qed.

Lemma registries_eq (g g' : Registries) :
  (forall c, registry c g = registry c g') -> g = g'.
Proof.
  intros H. destruct g as [a b c], g' as [a' b' c'].
  pose proof (H RequestChain) as H1. pose proof (H ResponseChain) as H2.
  pose proof (H ErrorChain) as H3. cbn in H1, H2, H3. congruence.
Qed.

Lemma Chain_eq_dec (c c' : Chain) : {c = c'} + {c <> c'}.
Proof. decide equality. Qed.

(** C10, as the code has it.  For each of the three registries, adding an
    interceptor puts it at the end of that registry and leaves the other two
    alone; the returned function, called on any later state, takes the first
    occurrence of the interceptor out of its registry and keeps all other
    entries in their order, and does nothing when the interceptor is not in
    the registry.  A second call changes nothing further when the
    interceptor had no second occurrence. *)
Theorem add_and_remove (c : Chain) (i : Ref) (g : Registries) :
  let added := fst (addInterceptor c i g) in
  let remove := snd (addInterceptor c i g) in
  registry c added = registry c g ++ [i]
  /\ (forall c', c' <> c -> registry c' added = registry c' g)
  /\ (forall g' c', c' <> c -> registry c' (remove g') = registry c' g')
  /\ (forall g' l1 l2,
        registry c g' = l1 ++ i :: l2 -> ~ In i l1 ->
        registry c (remove g') = l1 ++ l2
        /\ (~ In i l2 -> remove (remove g') = remove g'))
  /\ (forall g', ~ In i (registry c g') -> remove g' = g').
Proof.
  intros added remove. subst added remove.
  destruct (addInterceptor_fst c i g) as [Hadd Hkeep].
  split; [exact Hadd |]. split; [exact Hkeep |].
  split; [intros g' c' Hc; apply addInterceptor_snd; exact Hc |].
  split.
  - intros g' l1 l2 Hreg H1.
    destruct (addInterceptor_snd c i g g') as [Hrm Hoth].
    split; [rewrite Hrm, Hreg; apply remover_first; exact H1 |].
    intros H2. apply registries_eq. intros c'.
    destruct (Chain_eq_dec c' c) as [-> | Hc].
    + rewrite (proj1 (addInterceptor_snd c i g _)), Hrm, Hreg.
      apply remover_twice; assumption.
    + rewrite (proj2 (addInterceptor_snd c i g _) c' Hc). reflexivity.
  - intros g' Habs. apply registries_eq. intros c'.
    destruct (Chain_eq_dec c' c) as [-> | Hc].
    + rewrite (proj1 (addInterceptor_snd c i g g')). apply remover_absent. exact Habs.
    + apply addInterceptor_snd. exact Hc.
Qed.

Lemma add_and_remove_witness :
  requestInterceptors
    (snd (addRequestInterceptor 7%nat (mkRegistries [3%nat] [] []))
         (mkRegistries [3%nat; 7%nat; 5%nat] [] []))
  = [3%nat; 5%nat].
Proof.
  pose proof (add_and_remove RequestChain 7%nat (mkRegistries [3%nat] [] [])) as H.
  cbv zeta in H.
  destruct H as (_ & _ & _ & Hrm & _).
  refine (proj1 (Hrm (mkRegistries [3%nat; 7%nat; 5%nat] [] []) [3%nat] [5%nat] eq_refl _)).
  intros [E | []]. discriminate E.
Defined.

(** C10 as stated fails: when the same function was added twice, the
    second call of one returned function removes the other registration. *)
Lemma remover_not_idempotent :
  let g0 := mkRegistries [] [] [] in
  let g1 := fst (addErrorInterceptor 7%nat g0) in
  let remove := snd (addErrorInterceptor 7%nat g0) in
  let g2 := fst (addErrorInterceptor 7%nat g1) in
  errorInterceptors g2 = [7%nat; 7%nat]
  /\ errorInterceptors (remove g2) = [7%nat]
  /\ errorInterceptors (remove (remove g2)) = []
  /\ remove (remove g2) <> remove g2.
Proof.
  cbv zeta. repeat split. discriminate.
Qed.

(** ** The retry loop *)

Section Loop.

Variable f : Functions.
Variable g : Registries.
Variable net : Z -> Completion Response Value.
Variable url : string.
Variable retries retryDelay : Z.

Lemma attempts_done (fuel : nat) (attempt : Z) (lastError : Value) :
  retries < attempt ->
  attempts fuel f g net url retries retryDelay attempt lastError = (Left lastError, []).
Proof.
  intros H. destruct fuel; cbn [attempts];
    destruct (Z.leb_spec attempt retries); try lia; reflexivity.
Qed.

(** One pass of the loop, by the way its [try] block ends. *)
Lemma attempts_pass (fuel : nat) (attempt : Z) (lastError : Value) :
  attempt <= retries ->
  attempts (S fuel) f g net url retries retryDelay attempt lastError
  = match fst (tryBlock f g (net attempt)) with
    | Return r => (Returned r, CallFetch url attempt :: snd (tryBlock f g (net attempt)))
    | Store apiError =>
        (fst (attempts fuel f g net url retries retryDelay (attempt + 1) (VApiError apiError)),
         CallFetch url attempt :: snd (tryBlock f g (net attempt))
         ++ snd (attempts fuel f g net url retries retryDelay (attempt + 1) (VApiError apiError)))
    | Raise error =>
        match catchBlock error with
        | Throw x => (Escaped x, CallFetch url attempt :: snd (tryBlock f g (net attempt)))
        | Normal lastError' =>
            if attempt =? retries then
              (Left lastError', CallFetch url attempt :: snd (tryBlock f g (net attempt)))
            else
              (fst (attempts fuel f g net url retries retryDelay (attempt + 1) lastError'),
               CallFetch url attempt :: snd (tryBlock f g (net attempt))
               ++ Sleep retryDelay
               :: snd (attempts fuel f g net url retries retryDelay (attempt + 1) lastError'))
        end
    end.
Proof.
  intros H. cbn [attempts].
  destruct (Z.leb_spec attempt retries); [| lia].
  destruct (tryBlock f g (net attempt)) as [t ev]. cbn [fst snd].
  destruct t as [r | apiError | error].
  - reflexivity.
  - destruct (attempts fuel f g net url retries retryDelay (attempt + 1) (VApiError apiError)).
    reflexivity.
  - destruct (catchBlock error) as [lastError' | x]; [| reflexivity].
    destruct (attempt =? retries); [reflexivity |].
    destruct (attempts fuel f g net url retries retryDelay (attempt + 1) lastError').
    reflexivity.
Qed.

(** The loop ends: it makes at most [retries + 1] passes. *)
Lemma attempts_returns (fuel : nat) :
  forall (attempt : Z) (lastError : Value),
    retries + 1 - attempt <= Z.of_nat fuel ->
    fst (attempts fuel f g net url retries retryDelay attempt lastError) <> OutOfFuel.
Proof.
  induction fuel as [| fuel IH]; intros attempt lastError Hfuel.
  - rewrite attempts_done by lia. discriminate.
  - destruct (Z.leb_spec attempt retries) as [Hle | Hgt];
      [| rewrite attempts_done by lia; discriminate].
    rewrite attempts_pass by exact Hle.
    destruct (fst (tryBlock f g (net attempt))) as [r | apiError | error].
    + discriminate.
    + cbn [fst]. apply IH. lia.
    + destruct (catchBlock error) as [lastError' | x]; [| discriminate].
      destruct (attempt =? retries); [discriminate |].
      cbn [fst]. apply IH. lia.
Qed.

(** A response with one of the statuses 400, 401, 403, 404 and 422 is
    thrown inside the [try] block, so the [catch] block of the same pass
    gets it: below the cap the loop waits and calls [fetch] again. *)
Lemma attempts_nonRetryable (fuel : nat) (attempt : Z) (lastError : Value)
    (r : Response) :
  net attempt = Normal r ->
  ok r = false ->
  nonRetryable (Js.status r) = true ->
  attempt < retries ->
  attempts (S (S fuel)) f g net url retries retryDelay attempt lastError
  = (fst (attempts (S fuel) f g net url retries retryDelay (attempt + 1)
                   (VApiError (responseError r))),
     CallFetch url attempt :: Sleep retryDelay
     :: snd (attempts (S fuel) f g net url retries retryDelay (attempt + 1)
                      (VApiError (responseError r))))
  /\ exists ev,
       snd (attempts (S fuel) f g net url retries retryDelay (attempt + 1)
                     (VApiError (responseError r)))
       = CallFetch url (attempt + 1) :: ev.
Proof.
  intros Hnet Hok Hterminal Hcap. split.
  - rewrite attempts_pass by lia.
    unfold tryBlock. rewrite Hnet, Hok, Hterminal. cbn [fst snd catchBlock get_name].
    cbn [String.eqb Ascii.eqb Bool.eqb andb].
    destruct (Z.eqb_spec attempt retries); [lia | reflexivity].
  - rewrite attempts_pass by lia.
    destruct (fst (tryBlock f g (net (attempt + 1)))) as [r' | e' | x'].
    + eexists; reflexivity.
    + eexists; reflexivity.
    + destruct (catchBlock x'); [| eexists; reflexivity].
      destruct (attempt + 1 =? retries); eexists; reflexivity.
Qed.

End Loop.

(** [request] returns. *)
Lemma request_returns (f : Functions) (g : Registries) (config : RequestConfig)
    (net : Z -> Completion Response Value) (url : string) (options : Partial) :
  fst (request f g config net url options) <> Normal NoFuel.
Proof.
  unfold request.
  destruct (applyRequestInterceptors f (requestInterceptors g) (mergeOptions config options))
    as [[rc | x] ev]; [| discriminate].
  pose proof (@attempts_returns f g net (resolveUrl config url)
                (Http.retries rc) (retryDelay rc)
                (Z.to_nat (Http.retries rc + 1)) 0 VUndefined) as H.
  destruct (attempts _ f g net _ _ _ 0 VUndefined) as [[r | lastError | x |] ev'].
  - discriminate.
  - destruct (applyErrorInterceptors f (errorInterceptors g) lastError) as [[v | x] ev''];
      [destruct v |]; discriminate.
  - discriminate.
  - exfalso. apply H; [lia | reflexivity].
Qed.

(** C1, on the code.  A client made with [retries: 2] whose server answers
    404 every time calls [fetch] three times, with the retry delay in
    between, before the error reaches the caller. *)
Theorem request_retries_404 :
  request Scenario.passive (mkRegistries [] [] []) Scenario.client
          (fun _ => Normal Scenario.notFound) "/missing" (Scenario.withRetries 2)
  = (Throw (VApiError (mkApiError "The requested resource was not found" 404
                                  (Some (BJson (mkJson None "{}"))) None)),
     [CallFetch "https://api.example.com/missing" 0; Sleep 1000;
      CallFetch "https://api.example.com/missing" 1; Sleep 1000;
      CallFetch "https://api.example.com/missing" 2])
  /\ fetchCount (snd (request Scenario.passive (mkRegistries [] [] []) Scenario.client
                              (fun _ => Normal Scenario.notFound) "/missing"
                              (Scenario.withRetries 2))) = 3%nat.
Proof. split; reflexivity. Qed.

(** ** What leaves the loop as [lastError] *)






(** ** The chains *)

Section Chains.

Variable f : Functions.

Lemma applyRequestInterceptors_app (l1 l2 : list Ref) :
  forall (c cur : RequestConfig) (ev1 : list Event),
    applyRequestInterceptors f l1 c = (Normal cur, ev1) ->
    applyRequestInterceptors f (l1 ++ l2) c
    = (fst (applyRequestInterceptors f l2 cur),
       ev1 ++ snd (applyRequestInterceptors f l2 cur)).
Proof.
  induction l1 as [| i l1 IH]; intros c cur ev1 H.
  - cbn in H. inversion H; subst. cbn [app]. apply surjective_pairing.
  - cbn [app applyRequestInterceptors] in *.
    destruct (requestFn f i c) as [c' | x]; [| discriminate].
    destruct (applyRequestInterceptors f l1 c') as [r ev] eqn:E.
    inversion H; subst. rewrite (IH _ _ _ E). reflexivity.
Qed.

Lemma applyResponseInterceptors_app (l1 l2 : list Ref) :
  forall (c cur : Envelope) (ev1 : list Event),
    applyResponseInterceptors f l1 c = (Normal cur, ev1) ->
    applyResponseInterceptors f (l1 ++ l2) c
    = (fst (applyResponseInterceptors f l2 cur),
       ev1 ++ snd (applyResponseInterceptors f l2 cur)).
Proof.
  induction l1 as [| i l1 IH]; intros c cur ev1 H.
  - cbn in H. inversion H; subst. cbn [app]. apply surjective_pairing.
  - cbn [app applyResponseInterceptors] in *.
    destruct (responseFn f i c) as [c' | x]; [| discriminate].
    destruct (applyResponseInterceptors f l1 c') as [r ev] eqn:E.
    inversion H; subst. rewrite (IH _ _ _ E). reflexivity.
Qed.

(** When the first part of the error chain has run through, the rest
    starts from the error it left. *)
Lemma errorLoop_app (error : Value) (l1 l2 : list Ref) :
  forall (c cur : Value) (ev1 : list Event),
    errorLoop f error l1 c = (Normal cur, ev1) ->
    cur <> VNull ->
    errorLoop f error (l1 ++ l2) c
    = (fst (errorLoop f error l2 cur), ev1 ++ snd (errorLoop f error l2 cur)).
Proof.
  induction l1 as [| i l1 IH]; intros c cur ev1 H Hcur.
  - cbn in H. inversion H; subst. cbn [app]. apply surjective_pairing.
  - cbn [app errorLoop] in *.
    destruct (errorFn f i c) as [result | x].
    + destruct result as [| | s | r | e]; cbn [instanceof_Error] in H |- *;
        try (inversion H; subst; contradiction);
        match type of H with
        | (let (_, _) := errorLoop f error l1 ?c' in _) = _ =>
            revert H; destruct (errorLoop f error l1 c') as [out ev] eqn:E; intros H
        end;
        inversion H; subst; rewrite (IH _ _ _ E Hcur); reflexivity.
    + destruct (nullish x || nullish error); [discriminate |].
      revert H. destruct (errorLoop f error l1 c) as [out ev] eqn:E. intros H.
      inversion H; subst. rewrite (IH _ _ _ E Hcur). reflexivity.
Qed.

(** The error chain itself does not throw, unless an interceptor throws
    [undefined] or [null] or the error is one of these. *)
Lemma errorLoop_no_throw (error : Value) (l : list Ref) :
  nullish error = false ->
  (forall i v x, errorFn f i v = Throw x -> nullish x = false) ->
  forall c, exists v, fst (errorLoop f error l c) = Normal v.
Proof.
  intros He Hf. induction l as [| i l IH]; intros c.
  - eexists; reflexivity.
  - cbn [errorLoop]. destruct (errorFn f i c) as [result | x] eqn:E.
    + destruct result as [| | s | r | e]; cbn [instanceof_Error];
        try (eexists; reflexivity);
        match goal with
        | |- context [errorLoop f error l ?c'] =>
            destruct (IH c') as [v Hv];
            destruct (errorLoop f error l c') as [out ev]
        end;
        cbn [fst] in *; exists v; exact Hv.
    + rewrite (Hf _ _ _ E), He. cbn [orb].
      destruct (IH c) as [v Hv]. destruct (errorLoop f error l c) as [out ev].
      cbn [fst] in *. exists v. exact Hv.
Qed.

End Chains.

(** C4.  When the error interceptors before [i] have run through and [i]
    returns [null] for the error it gets, [applyErrorInterceptors] returns
    [null] with the call of [i] as its last: no interceptor registered
    after [i] is called, and [request] resolves with [null] and does not
    throw. *)
Theorem null_ends_error_chain
    (f : Functions) (g : Registries) (config : RequestConfig)
    (net : Z -> Completion Response Value) (url : string) (options : Partial)
    (l1 l2 : list Ref) (i : Ref)
    (requestConfig : RequestConfig) (ev ev' ev1 : list Event)
    (lastError cur : Value) :
  errorInterceptors g = l1 ++ i :: l2 ->
  applyRequestInterceptors f (requestInterceptors g) (mergeOptions config options)
  = (Normal requestConfig, ev) ->
  attempts (Z.to_nat (Http.retries requestConfig + 1)) f g net (resolveUrl config url)
           (Http.retries requestConfig) (retryDelay requestConfig) 0 VUndefined
  = (Left lastError, ev') ->
  errorLoop f lastError l1 lastError = (Normal cur, ev1) ->
  cur <> VNull ->
  errorFn f i cur = Normal VNull ->
  applyErrorInterceptors f (errorInterceptors g) lastError
  = (Normal VNull, ev1 ++ [CallErrorInterceptor i])
  /\ request f g config net url options
     = (Normal Null, ev ++ ev' ++ ev1 ++ [CallErrorInterceptor i])
  /\ errorCalls (snd (applyErrorInterceptors f (errorInterceptors g) lastError))
     = errorCalls ev1 ++ [i].
Proof.
  intros Hreg Hreq Hloop Hl1 Hcur Hnull.
  assert (Hchain : applyErrorInterceptors f (errorInterceptors g) lastError
                   = (Normal VNull, ev1 ++ [CallErrorInterceptor i])).
  { unfold applyErrorInterceptors. rewrite Hreg.
    rewrite (@errorLoop_app f lastError l1 (i :: l2) _ _ _ Hl1 Hcur).
    cbn [errorLoop]. rewrite Hnull. reflexivity. }
  split; [exact Hchain |]. split.
  - unfold request. rewrite Hreq, Hloop, Hchain. reflexivity.
  - rewrite Hchain. cbn [snd].
    clear. induction ev1 as [| e ev1 IH]; [reflexivity |].
    destruct e; cbn [app errorCalls]; rewrite ?IH; reflexivity.
Qed.

Lemma null_ends_error_chain_witness :
  request Scenario.handlingErrors (mkRegistries [] [] [2%nat; 1%nat; 3%nat])
          Scenario.client (fun _ => Normal Scenario.notFound) "/missing" no_options
  = (Normal Null,
     [CallFetch "https://api.example.com/missing" 0;
      CallErrorInterceptor 2%nat; CallErrorInterceptor 1%nat]).
Proof.
  refine (proj1 (proj2 (@null_ends_error_chain
    Scenario.handlingErrors (mkRegistries [] [] [2%nat; 1%nat; 3%nat])
    Scenario.client (fun _ => Normal Scenario.notFound) "/missing" no_options
    [2%nat] [3%nat] 1%nat
    (mergeOptions Scenario.client no_options) []
    [CallFetch "https://api.example.com/missing" 0]
    [CallErrorInterceptor 2%nat]
    (VApiError (responseError Scenario.notFound))
    (VApiError (responseError Scenario.notFound))
    eq_refl eq_refl eq_refl eq_refl _ eq_refl))).
  discriminate.
Defined.

(** The interceptors of the module itself: a 401 met on another page than
    the login page is handled by the error interceptor, and [request]
    resolves with [null]; on the login page the error is thrown. *)
Lemma module_interceptor_handles_401 :
  request (moduleFunctions (mkBrowser (Some "t0k3n") "/dashboard")) moduleRegistries
          Scenario.client (fun _ => Normal Scenario.unauthorized) "/login" no_options
  = (Normal Null,
     [CallRequestInterceptor 0%nat; CallFetch "https://api.example.com/login" 0;
      CallErrorInterceptor 2%nat])
  /\ fst (request (moduleFunctions (mkBrowser None "/login")) moduleRegistries
                  Scenario.client (fun _ => Normal Scenario.unauthorized) "/login"
                  no_options)
     = Throw (VApiError (mkApiError "Bad credentials" 401
                           (Some (BJson (mkJson (Some "Bad credentials")
                                                   "{ message: 'Bad credentials' }"))) None)).
Proof. split; reflexivity. Qed.

(** C5, as the code has it.  In the error chain an exception of an
    interceptor is caught: the chain goes on with the error that
    interceptor was given, and the exception is not the outcome.  (The
    [catch] block reads [.message] of the exception and of the error the
    chain started from, so neither may be [undefined] or [null].)  The
    request and the response chain are plain [reduce]s: an exception of an
    interceptor ends the chain and is its outcome. *)
Theorem interceptor_exceptions
    (f : Functions) (l1 l2 : list Ref) (i : Ref) (x : Value) :
  (forall (error cur : Value) (ev1 : list Event),
      errorLoop f error l1 error = (Normal cur, ev1) ->
      cur <> VNull ->
      errorFn f i cur = Throw x ->
      nullish x = false ->
      nullish error = false ->
      applyErrorInterceptors f (l1 ++ i :: l2) error
      = (fst (errorLoop f error l2 cur),
         ev1 ++ CallErrorInterceptor i :: snd (errorLoop f error l2 cur)))
  /\ (forall (config cur : RequestConfig) (ev1 : list Event),
         applyRequestInterceptors f l1 config = (Normal cur, ev1) ->
         requestFn f i cur = Throw x ->
         applyRequestInterceptors f (l1 ++ i :: l2) config
         = (Throw x, ev1 ++ [CallRequestInterceptor i]))
  /\ (forall (response cur : Envelope) (ev1 : list Event),
         applyResponseInterceptors f l1 response = (Normal cur, ev1) ->
         responseFn f i cur = Throw x ->
         applyResponseInterceptors f (l1 ++ i :: l2) response
         = (Throw x, ev1 ++ [CallResponseInterceptor i])).
Proof.
  split; [| split].
  - intros error cur ev1 Hl1 Hcur Hthrow Hx Herr.
    unfold applyErrorInterceptors.
    rewrite (@errorLoop_app f error l1 (i :: l2) _ _ _ Hl1 Hcur).
    cbn [errorLoop]. rewrite Hthrow, Hx, Herr. cbn [orb].
    destruct (errorLoop f error l2 cur). reflexivity.
  - intros config cur ev1 Hl1 Hthrow.
    rewrite (@applyRequestInterceptors_app f l1 (i :: l2) _ _ _ Hl1).
    cbn [applyRequestInterceptors]. rewrite Hthrow. reflexivity.
  - intros response cur ev1 Hl1 Hthrow.
    rewrite (@applyResponseInterceptors_app f l1 (i :: l2) _ _ _ Hl1).
    cbn [applyResponseInterceptors]. rewrite Hthrow. reflexivity.
Qed.

Lemma interceptor_exceptions_witness :
  applyErrorInterceptors Scenario.handlingErrors [2%nat; 0%nat; 3%nat]
                         (VApiError (responseError Scenario.notFound))
  = (Normal (VApiError (responseError Scenario.notFound)),
     [CallErrorInterceptor 2%nat; CallErrorInterceptor 0%nat; CallErrorInterceptor 3%nat]).
Proof.
  refine (proj1 (@interceptor_exceptions Scenario.handlingErrors
                   [2%nat] [3%nat] 0%nat Scenario.boom)
                (VApiError (responseError Scenario.notFound))
                (VApiError (responseError Scenario.notFound))
                [CallErrorInterceptor 2%nat] eq_refl _ eq_refl eq_refl eq_refl).
  discriminate.
Defined.

(** C5 as stated fails for the request and the response chain: the
    exception of a request interceptor reaches the caller of [request]
    before any call of [fetch], and the exception of a response interceptor
    turns a 200 response into a failure that reaches the caller. *)
Lemma interceptor_exception_reaches_caller :
  applyRequestInterceptors Scenario.throwingRequest [0%nat; 1%nat] Scenario.client
  = (Throw Scenario.boom, [CallRequestInterceptor 0%nat])
  /\ request Scenario.throwingRequest (mkRegistries [0%nat; 1%nat] [] [])
             Scenario.client (fun _ => Normal (Scenario.typed "text/plain" "hi"))
             "/hello" no_options
     = (Throw Scenario.boom, [CallRequestInterceptor 0%nat])
  /\ request Scenario.throwingResponse (mkRegistries [] [0%nat] [])
             Scenario.client (fun _ => Normal (Scenario.typed "text/plain" "hi"))
             "/hello" no_options
     = (Throw Scenario.boom,
        [CallFetch "https://api.example.com/hello" 0; CallResponseInterceptor 0%nat]).
Proof. repeat split. Qed.

(** ** Reading the body *)

(** C9, as the code has it.  [processResponse] of [utils/http.js] reads the
    body as JSON when the declared content type contains
    [application/json], else as text when it contains [text/plain] or
    [text/html], else as a blob when it contains
    [application/octet-stream], and otherwise returns the [Response] object
    unread.  [executeRequest] of [api/client.js] reads the body as JSON
    when the declared content type contains [application/json] and as text
    in every other case. *)
Theorem body_by_content_type (r : Response) :
  let declared := match contentType r with Some c => c | None => "" end in
  (includes declared "application/json" = true ->
   processResponse r
   = match json r with Normal d => Normal (BJson d) | Throw e => Throw e end)
  /\ (includes declared "application/json" = false ->
      includes declared "text/plain" || includes declared "text/html" = true ->
      processResponse r
      = match text r with Normal t => Normal (BText t) | Throw e => Throw e end)
  /\ (includes declared "application/json" = false ->
      includes declared "text/plain" || includes declared "text/html" = false ->
      includes declared "application/octet-stream" = true ->
      processResponse r
      = match blob r with Normal b => Normal (BBlob b) | Throw e => Throw e end)
  /\ (includes declared "application/json" = false ->
      includes declared "text/plain" || includes declared "text/html" = false ->
      includes declared "application/octet-stream" = false ->
      processResponse r = Normal (BResponse r))
  /\ (includes declared "application/json" = true ->
      Client.parseBody r
      = match json r with
        | Normal j => Normal (Client.DataJson j)
        | Throw e => Throw (VError e)
        end)
  /\ (includes declared "application/json" = false ->
      Client.parseBody r
      = match text r with
        | Normal s => Normal (Client.DataText s)
        | Throw e => Throw (VError e)
        end).
Proof.
  intros declared. unfold processResponse, Client.parseBody. fold declared.
  assert (Hc : match contentType r with
               | Some ct => includes ct "application/json"
               | None => false
               end = includes declared "application/json")
    by (subst declared; destruct (contentType r); reflexivity).
  rewrite Hc.
  repeat split; intros; repeat match goal with H : _ = _ |- _ => rewrite H end;
    reflexivity.
Qed.

Lemma body_by_content_type_witness :
  processResponse (Scenario.typed "image/png" "PNG")
  = Normal (BResponse (Scenario.typed "image/png" "PNG"))
  /\ Client.parseBody (Scenario.typed "application/octet-stream" "PNG")
     = Normal (Client.DataText "PNG").
Proof.
  split.
  - exact (proj1 (proj2 (proj2 (proj2
             (body_by_content_type (Scenario.typed "image/png" "PNG")))))
             eq_refl eq_refl eq_refl).
  - exact (proj2 (proj2 (proj2 (proj2 (proj2
             (body_by_content_type (Scenario.typed "application/octet-stream" "PNG"))))))
             eq_refl).
Defined.

(** C9 as stated fails: [processResponse] does not read a body of an
    unknown type as text, it returns the [Response] object; and
    [executeRequest] has no binary reading, it reads
    [application/octet-stream] as text. *)
Lemma unrecognized_type_is_not_text :
  processResponse (Scenario.typed "image/png" "PNG")
  = Normal (BResponse (Scenario.typed "image/png" "PNG"))
  /\ processResponse (Scenario.typed "image/png" "PNG") <> Normal (BText "PNG")
  /\ processResponse (Scenario.typed "application/octet-stream" "PNG")
     = Normal (BBlob (mkBlob "PNG"))
  /\ Client.parseBody (Scenario.typed "application/octet-stream" "PNG")
     = Normal (Client.DataText "PNG").
Proof. repeat split. discriminate. Qed.

End HttpFacts.

(** * More properties of [src/api/client.js] *)

Module ClientMore.
Import Client ClientRest.

Local Open Scope Z_scope.

Section Run.

Variable w : World.
Variable o : Options.
Variable timeout retries : Z.

(** One line for each way a call of [executeRequest] with fuel goes on. *)
Lemma executeRequest_step (fuel : nat) (st : State) :
  executeRequest (S fuel) w o timeout retries st
  = match fetch w (fetches st) (now st) (requestSignal o timeout (timer st)) with
    | Never =>
        (PendingForever,
         mkState (now st) (timer st) (currentRetry st) (S (fetches st))
                 (randoms st) (delays st))
    | SettledAt t settled =>
        let st1 :=
          mkState t (clearTimeout timeout t (timer st)) (currentRetry st)
                  (S (fetches st)) (randoms st) (delays st) in
        match match settled with
              | Normal response => handleResponse response
              | Throw v => Throw v
              end with
        | Normal r => (Fulfilled r, st1)
        | Throw error =>
            match catchBlock error (currentRetry st) retries with
            | Rethrow v => (Rejected v, st1)
            | Again => executeRequest fuel w o timeout retries (backoff w st1)
            end
        end
    end.
Proof. reflexivity. Qed.

Lemma waits_S (currentRetry : Z) (randoms n : nat) :
  waits w currentRetry randoms (S n)
  = getRetryDelay (currentRetry + 1) (random w randoms)
    :: waits w (currentRetry + 1) (S randoms) n.
Proof.
  unfold waits. cbn [seq map]. f_equal.
  - f_equal. lia. f_equal. lia.
  - rewrite <- seq_shift, map_map. apply map_ext. intros k.
    f_equal; [lia | f_equal; lia].
Qed.

(** The books of a run: [n] retries mean [n + 1] calls of [fetch], [n]
    draws of [Math.random] and the [n] delays [getRetryDelay] computes for
    the retry numbers in turn. *)
Lemma executeRequest_books (fuel : nat) :
  forall st : State,
    Z.max 0 (retries - currentRetry st) < Z.of_nat fuel ->
    exists n : nat,
      let st' := snd (executeRequest fuel w o timeout retries st) in
      Z.of_nat n <= Z.max 0 (retries - currentRetry st)
      /\ currentRetry st' = currentRetry st + Z.of_nat n
      /\ fetches st' = (fetches st + n + 1)%nat
      /\ randoms st' = (randoms st + n)%nat
      /\ delays st' = delays st ++ waits w (currentRetry st) (randoms st) n.
Proof.
  induction fuel as [| fuel IH]; intros st Hfuel; [lia |].
  rewrite executeRequest_step.
  destruct (fetch w (fetches st) (now st) (requestSignal o timeout (timer st)))
    as [t settled |].
  2: { exists 0%nat. cbn. rewrite app_nil_r. repeat split; lia. }
  cbv zeta.
  destruct (match settled with Normal r => handleResponse r | Throw v => Throw v end)
    as [r | error].
  { exists 0%nat. cbn. rewrite app_nil_r. repeat split; lia. }
  destruct (catchBlock error (currentRetry st) retries) eqn:E.
  { exists 0%nat. cbn. rewrite app_nil_r. repeat split; lia. }
  apply ClientFacts.catchBlock_Again in E.
  match goal with
  | |- context [executeRequest fuel w o timeout retries ?s] =>
      destruct (IH s) as [n Hn]; [unfold backoff; cbn [currentRetry]; lia |];
      set (st2 := s) in *
  end.
  cbv zeta in Hn. destruct Hn as (Hle & Hc & Hf & Hr & Hd).
  assert (Hle' : Z.of_nat (S n) <= Z.max 0 (retries - currentRetry st))
    by (subst st2; unfold backoff in Hle; cbn [currentRetry] in Hle; lia).
  exists (S n). cbv zeta.
  rewrite Hc, Hf, Hr, Hd. subst st2. unfold backoff.
  cbn [currentRetry fetches randoms delays].
  rewrite waits_S, <- app_assoc. cbn [app].
  repeat split; try lia.
Qed.

End Run.

(** ** What a run ends with *)

Lemma or_string_nonempty (x : option string) (y : string) :
  y <> "" -> or_string x y <> "".
Proof.
  intros Hy. unfold or_string. destruct x as [s |]; [| exact Hy].
  destruct (String.eqb_spec s ""); assumption.
Qed.

Section Ends.

Variable w : World.
Variable o : Options.
Variable timeout retries : Z.

Lemma fetch_resolution (k : nat) (t0 t : Z) (sig : option (Z * Value ApiError))
    (r : Response) :
  fetch w k t0 sig = SettledAt t (Normal r) -> exists d, server w k = Replies d r.
Proof.
  unfold fetch. intros H.
  destruct (server w k) as [d r' | d e |]; destruct sig as [[a why] |];
    repeat match type of H with
           | context [if ?c then _ else _] => destruct c
           end;
    inversion H; subst; eauto.
Qed.

Lemma handleResponse_Normal (response : Response) (r : Success) :
  handleResponse response = Normal r ->
  ok response = true
  /\ parseBody response = Normal (success_data r)
  /\ success_statusCode r = status response
  /\ success_headers r = headers response.
Proof.
  unfold handleResponse. destruct (parseBody response) as [d | v]; [| discriminate].
  destruct (ok response); cbn [negb]; [| discriminate].
  intros H. inversion H. repeat split.
Qed.

Lemma handleResponse_Throw (response : Response) (v : Value ApiError) :
  handleResponse response = Throw v ->
  (exists r, v = VError r)
  \/ (exists e, v = VApiError e
                /\ ok response = false
                /\ message e <> ""
                /\ statusCode e = status response
                /\ type e = mapStatusToErrorType (status response)
                /\ parseBody response = Normal (data e)).
Proof.
  unfold handleResponse. destruct (parseBody response) as [d | x] eqn:Hp.
  - destruct (ok response); cbn [negb]; [discriminate |].
    intros H. inversion H. right. eexists. split; [reflexivity |].
    cbn [message statusCode type data]. repeat split.
    apply or_string_nonempty. unfold or_string.
    destruct (String.eqb_spec (statusText response) ""); [discriminate | assumption].
  - intros H. inversion H; subst. left.
    unfold parseBody in Hp.
    destruct (match contentType response with
              | Some ct => includes ct "application/json"
              | None => false
              end);
      [destruct (json response) | destruct (text response)];
      inversion Hp; eauto.
Qed.

(** A request is fulfilled only with an answer of the server that is [ok]
    and whose body could be read. *)
Lemma executeRequest_fulfilled (fuel : nat) :
  forall (st st' : State) (r : Success),
    executeRequest fuel w o timeout retries st = (Fulfilled r, st') ->
    exists k d response,
      server w k = Replies d response
      /\ ok response = true
      /\ parseBody response = Normal (success_data r)
      /\ success_statusCode r = status response
      /\ success_headers r = headers response.
Proof.
  induction fuel as [| fuel IH]; intros st st' r; [discriminate |].
  rewrite executeRequest_step.
  destruct (fetch w (fetches st) (now st) (requestSignal o timeout (timer st)))
    as [t settled |] eqn:Hf; [| discriminate].
  cbv zeta. destruct settled as [response | v].
  - destruct (handleResponse response) as [r0 | error] eqn:Hh.
    + intros H. inversion H; subst.
      destruct (fetch_resolution _ _ _ Hf) as [d Hd].
      exists (fetches st), d, response. split; [exact Hd |].
      apply handleResponse_Normal. exact Hh.
    + destruct (catchBlock error (currentRetry st) retries); [discriminate | apply IH].
  - destruct (catchBlock v (currentRetry st) retries); [discriminate | apply IH].
Qed.

Hypothesis abort_is_no_ApiError :
  Forall (fun why => isApiError (abortRejection w why) = false) (abort_reasons o).

(** The [ApiError] a request is rejected with: either it stands for an
    answer of the server that is not [ok], with the status of that answer
    and the kind [mapStatusToErrorType] gives it, or it has status 0 and
    one of the kinds [TIMEOUT], [CANCELED], [NETWORK]. *)
Lemma executeRequest_rejected (fuel : nat) :
  forall (st st' : State) (e : ApiError),
    executeRequest fuel w o timeout retries st = (Rejected (VApiError e), st') ->
    message e <> ""
    /\ ((statusCode e = 0
         /\ (type e = TIMEOUT \/ type e = CANCELED \/ type e = NETWORK)
         /\ exists original, data e = DataOriginal original)
        \/ exists k d response,
             server w k = Replies d response
             /\ ok response = false
             /\ statusCode e = status response
             /\ type e = mapStatusToErrorType (status response)
             /\ parseBody response = Normal (data e)).
Proof.
  induction fuel as [| fuel IH]; intros st st' e; [discriminate |].
  rewrite executeRequest_step.
  destruct (fetch w (fetches st) (now st) (requestSignal o timeout (timer st)))
    as [t settled |] eqn:Hf; [| discriminate].
  cbv zeta.
  set (attempt := match settled with Normal r => handleResponse r | Throw v => Throw v end).
  assert (Hattempt :
            forall error, attempt = Throw error ->
              isApiError error = false
              \/ exists e0 k d response,
                   error = VApiError e0 /\ message e0 <> ""
                   /\ server w k = Replies d response /\ ok response = false
                   /\ statusCode e0 = status response
                   /\ type e0 = mapStatusToErrorType (status response)
                   /\ parseBody response = Normal (data e0)).
  { intros error Ha. subst attempt. destruct settled as [response | v].
    - destruct (handleResponse_Throw _ Ha) as [[r ->] | [e0 [-> He0]]];
        [left; reflexivity |].
      destruct (fetch_resolution _ _ _ Hf) as [d Hd].
      right. exists e0, (fetches st), d, response. tauto.
    - inversion Ha; subst. left.
      apply ClientFacts.fetch_rejection in Hf.
      destruct Hf as [[r ->] | [a [why [Hs ->]]]]; [reflexivity |].
      apply ClientFacts.requestSignal_reason in Hs.
      rewrite Forall_forall in abort_is_no_ApiError.
      apply abort_is_no_ApiError. exact Hs. }
  destruct attempt as [r | error]; [discriminate |].
  destruct (catchBlock error (currentRetry st) retries) as [v |] eqn:Hc; [| apply IH].
  intros H. inversion H; subst. clear H.
  destruct (Hattempt error eq_refl) as [Hno | (e0 & k & d & response & -> & Hrest)].
  - unfold catchBlock in Hc.
    destruct error as [| | s | r | e0]; cbn [get_name] in Hc; try discriminate Hno;
      try (inversion Hc; fail).
    + cbn in Hc. destruct (shouldRetry _ _ _); [discriminate Hc | injection Hc as <-].
      cbn. split; [discriminate |].
      left. split; [reflexivity |]. split; [auto | eauto].
    + destruct (Js.name r =? "AbortError")%string.
      * injection Hc as <-. cbn.
        destruct (Js.message r =? "timeout")%string;
          (split; [discriminate |]); left;
          (split; [reflexivity |]); (split; [auto | eauto]).
      * destruct (shouldRetry _ _ _); [discriminate Hc | injection Hc as <-].
        cbn [message statusCode type data get_message].
        split; [destruct (String.eqb_spec (Js.message r) ""); [discriminate | assumption] |].
        left. split; [reflexivity |]. split; [auto | eauto].
  - unfold catchBlock in Hc. cbn in Hc.
    destruct (shouldRetry e0 (currentRetry st) retries); [discriminate Hc |].
    injection Hc as <-.
    split; [tauto |]. right. exists k, d, response. tauto.
Qed.

End Ends.

(** X1.  [apiRequest] calls [fetch] at least once and at most
    [retries + 1] times (once when [retries] is negative). *)
Theorem apiRequest_fetches (w : World) (o : Options) :
  (1 <= fetches (snd (apiRequest w o)) <= S (Z.to_nat (retries_of o)))%nat.
Proof.
  unfold apiRequest. fold (retries_of o).
  destruct (@executeRequest_books w o
              (match Client.timeout o with Some t => t | None => DEFAULT_timeout w end)
              (retries_of o) (S (Z.to_nat (retries_of o)))
              (mkState 0 Armed 0 0 0 [])) as [n Hn]; [cbn; lia |].
  cbv zeta in Hn. destruct Hn as (Hle & _ & Hf & _).
  cbn [currentRetry fetches] in Hle, Hf.
  rewrite Hf. lia.
Qed.

(** X2.  When [apiRequest] ends after [n] retries it has called [fetch]
    [n + 1] times and [Math.random] [n] times, and the delays it waited
    are, in order, [getRetryDelay 1], ..., [getRetryDelay n] at these
    draws. *)
Theorem apiRequest_delays (w : World) (o : Options) :
  exists n : nat,
    currentRetry (snd (apiRequest w o)) = Z.of_nat n
    /\ fetches (snd (apiRequest w o)) = S n
    /\ randoms (snd (apiRequest w o)) = n
    /\ delays (snd (apiRequest w o))
       = map (fun k => getRetryDelay (Z.of_nat (S k)) (random w k)) (seq 0 n).
Proof.
  unfold apiRequest. fold (retries_of o).
  destruct (@executeRequest_books w o
              (match Client.timeout o with Some t => t | None => DEFAULT_timeout w end)
              (retries_of o) (S (Z.to_nat (retries_of o)))
              (mkState 0 Armed 0 0 0 [])) as [n Hn]; [cbn; lia |].
  cbv zeta in Hn. destruct Hn as (_ & Hc & Hf & Hr & Hd).
  cbn [currentRetry fetches randoms delays app] in Hc, Hf, Hr, Hd.
  exists n. rewrite Hc, Hf, Hr, Hd. repeat split; try lia.
  unfold waits. apply map_ext. intros k. f_equal. lia.
Qed.

(** X3.  [apiRequest] is fulfilled only with an answer of the server whose
    status is 200 to 299 and whose body could be read: the envelope carries
    that status, those headers and the body as parsed. *)
Theorem apiRequest_fulfilled (w : World) (o : Options) (r : Success) :
  fst (apiRequest w o) = Fulfilled r ->
  200 <= success_statusCode r <= 299
  /\ exists k d response,
       server w k = Replies d response
       /\ parseBody response = Normal (success_data r)
       /\ success_statusCode r = status response
       /\ success_headers r = headers response.
Proof.
  unfold apiRequest. intros H.
  destruct (executeRequest _ w o _ _ _) as [out st'] eqn:E. cbn in H. subst out.
  destruct (executeRequest_fulfilled _ _ _ _ _ _ E)
    as (k & d & response & Hs & Hok & Hb & Hc & Hh).
  split.
  - rewrite Hc. unfold ok in Hok. apply andb_prop in Hok. lia.
  - exists k, d, response. tauto.
Qed.

Lemma apiRequest_fulfilled_witness :
  200 <= 200 <= 299
  /\ exists k d response,
       server (Scenario.answering (Scenario.typed "text/plain" "hi")) k
       = Replies d response
       /\ parseBody response = Normal (DataText "hi")
       /\ 200 = status response
       /\ [("content-type", "text/plain")] = headers response.
Proof.
  exact (@apiRequest_fulfilled
           (Scenario.answering (Scenario.typed "text/plain" "hi"))
           (mkOptions None None None)
           (mkSuccess (DataText "hi") [("content-type", "text/plain")] 200)
           eq_refl).
Defined.

(** X4.  The [ApiError] that [apiRequest] is rejected with has a message
    that is not empty, and either status 0 and one of the kinds [TIMEOUT],
    [CANCELED], [NETWORK], with the caught value in [data], or the status
    of an answer of the server that is not [ok], the kind
    [mapStatusToErrorType] gives that status, and the parsed body in
    [data].  (An aborted [fetch] is taken not to reject with an [ApiError]
    of the caller's.) *)
Theorem apiRequest_rejected (w : World) (o : Options) (e : ApiError) :
  Forall (fun why => isApiError (abortRejection w why) = false) (abort_reasons o) ->
  fst (apiRequest w o) = Rejected (VApiError e) ->
  message e <> ""
  /\ ((statusCode e = 0
       /\ (type e = TIMEOUT \/ type e = CANCELED \/ type e = NETWORK)
       /\ exists original, data e = DataOriginal original)
      \/ exists k d response,
           server w k = Replies d response
           /\ ok response = false
           /\ statusCode e = status response
           /\ type e = mapStatusToErrorType (status response)
           /\ parseBody response = Normal (data e)).
Proof.
  unfold apiRequest. intros Hobj H.
  destruct (executeRequest _ w o _ _ _) as [out st'] eqn:E. cbn in H. subst out.
  eapply executeRequest_rejected; eassumption.
Qed.

Lemma apiRequest_rejected_witness :
  "Not Found" <> ""
  /\ ((404 = 0
       /\ (NOT_FOUND = TIMEOUT \/ NOT_FOUND = CANCELED \/ NOT_FOUND = NETWORK)
       /\ exists original, DataText "gone" = DataOriginal original)
      \/ exists k d response,
           server (Scenario.answering (Cases.gone)) k = Replies d response
           /\ ok response = false
           /\ 404 = status response
           /\ NOT_FOUND = mapStatusToErrorType (status response)
           /\ parseBody response = Normal (DataText "gone")).
Proof.
  refine (@apiRequest_rejected (Scenario.answering Cases.gone)
            (mkOptions None None None)
            (mkApiError "Not Found" NOT_FOUND 404 (DataText "gone")) _ eq_refl).
  repeat constructor.
Defined.


(** X5.  An aborted attempt is the last one: when [fetch] rejects with an
    error named [AbortError], [executeRequest] rejects at once, whatever
    retries are left, with status 0 and kind [TIMEOUT] if the message of
    the error is ['timeout'], kind [CANCELED] otherwise. *)
Theorem abort_is_final (w : World) (o : Options) (timeout retries : Z)
    (fuel : nat) (st : State) (t : Z) (r : RawError) :
  fetch w (fetches st) (now st) (requestSignal o timeout (timer st))
  = SettledAt t (Throw (VError r)) ->
  Js.name r = "AbortError" ->
  exists e st',
    executeRequest (S fuel) w o timeout retries st = (Rejected (VApiError e), st')
    /\ type e = (if String.eqb (Js.message r) "timeout" then TIMEOUT else CANCELED)
    /\ statusCode e = 0
    /\ data e = DataOriginal (OriginalError r)
    /\ fetches st' = S (fetches st)
    /\ delays st' = delays st.
Proof.
  intros Hf Hname. rewrite executeRequest_step, Hf. cbv zeta.
  unfold catchBlock. cbn [get_name get_message]. rewrite Hname.
  cbn [String.eqb Ascii.eqb Bool.eqb].
  eexists; eexists. split; [reflexivity |]. cbn.
  destruct (Js.message r =? "timeout")%string; repeat split.
Qed.

(** X6.  An answer that is not [ok] and whose body could be read is
    retried exactly when its status is 500 or more and retries are left;
    otherwise (408, 409 and 429 among others) it ends the request with the
    [ApiError] made of it. *)
Theorem answer_retried_from_500 (w : World) (o : Options) (timeout retries : Z)
    (fuel : nat) (st : State) (t : Z) (r : Response) (d : Payload) :
  fetch w (fetches st) (now st) (requestSignal o timeout (timer st))
  = SettledAt t (Normal r) ->
  parseBody r = Normal d ->
  ok r = false ->
  let st1 := mkState t (clearTimeout timeout t (timer st)) (currentRetry st)
                     (S (fetches st)) (randoms st) (delays st) in
  executeRequest (S fuel) w o timeout retries st
  = if (500 <=? status r) && (currentRetry st <? retries)
    then executeRequest fuel w o timeout retries (backoff w st1)
    else (Rejected (VApiError
                      (mkApiError
                         (or_string (data_message d)
                            (or_string (Some (statusText r)) "API request failed"))
                         (mapStatusToErrorType (status r)) (status r) d)),
          st1).
Proof.
  intros Hf Hb Hok st1. rewrite executeRequest_step, Hf. cbv zeta.
  unfold handleResponse. rewrite Hb, Hok. cbn [negb].
  unfold catchBlock. cbn [get_name]. cbn [String.eqb Ascii.eqb Bool.eqb].
  rewrite ClientFacts.shouldRetry_table. cbn [type statusCode]. fold st1.
  unfold mapStatusToErrorType.
  destruct (500 <=? status r).
  - cbn [andb]. rewrite andb_true_r.
    destruct (currentRetry st <? retries); reflexivity.
  - cbn [andb].
    destruct ((status r =? 401) || (status r =? 403));
      [rewrite andb_false_r; reflexivity |].
    destruct (status r =? 404); [rewrite andb_false_r; reflexivity |].
    destruct (status r =? 422); rewrite andb_false_r; reflexivity.
Qed.

Lemma answer_retried_from_500_witness :
  fst (executeRequest 1 (Scenario.answering Cases.tooMany) (mkOptions None (Some 3) None)
                      10000 3 (mkState 0 Armed 0 0 0 []))
  = Rejected (VApiError (mkApiError "Too Many Requests" UNKNOWN 429 (DataText "slow down"))).
Proof.
  rewrite (@answer_retried_from_500 (Scenario.answering Cases.tooMany)
             (mkOptions None (Some 3) None) 10000 3 0 (mkState 0 Armed 0 0 0 [])
             20 Cases.tooMany (DataText "slow down") eq_refl eq_refl eq_refl).
  reflexivity.
Defined.

Lemma abort_is_final_witness :
  exists e st',
    executeRequest 1 (Scenario.silentWorld abortErrorOf) (mkOptions (Some 100) (Some 3) None)
                   100 3 (mkState 0 Armed 0 0 0 [])
    = (Rejected (VApiError e), st')
    /\ type e = TIMEOUT
    /\ statusCode e = 0
    /\ data e = DataOriginal (OriginalError (mkRawError "AbortError" "timeout"))
    /\ fetches st' = 1%nat
    /\ delays st' = [].
Proof.
  exact (@abort_is_final (Scenario.silentWorld abortErrorOf)
           (mkOptions (Some 100) (Some 3) None) 100 3 0 (mkState 0 Armed 0 0 0 [])
           100 (mkRawError "AbortError" "timeout") eq_refl eq_refl).
Defined.

(** ** Runs without a caller's signal *)

Section NoSignal.

Variable w : World.
Variable o : Options.
Variable timeout retries : Z.

Hypothesis no_signal : signal o = None.








End NoSignal.





(** X10.  Once the caller supplies a signal, the outcome of [apiRequest]
    does not depend on [timeout]: any two timeouts give the same result. *)
Theorem timeout_has_no_part (w : World) (s : AbortSignal) (r t1 t2 : option Z) :
  fst (apiRequest w (mkOptions t1 r (Some s)))
  = fst (apiRequest w (mkOptions t2 r (Some s))).
Proof. apply ClientFacts.apiRequest_ignores_timeout. Qed.

End ClientMore.

(** * Header objects and the request headers *)

Module HeaderFacts.
Import Headers.

Lemma get_set_header (h : list (string * string)) (k v key : string) :
  get (Http.set_header h k v) key = if String.eqb key k then Some v else get h key.
Proof.
  induction h as [| [k' v'] h IH]; cbn [Http.set_header get].
  - rewrite String.eqb_sym. reflexivity.
  - destruct (String.eqb_spec k' k) as [-> | Hk]; cbn [get].
    + destruct (String.eqb_spec k key) as [-> | Hkey].
      * rewrite String.eqb_refl. reflexivity.
      * destruct (String.eqb_spec key k); [congruence | reflexivity].
    + destruct (String.eqb_spec k' key) as [-> | Hkey].
      * destruct (String.eqb_spec key k); [congruence | reflexivity].
      * exact IH.
Qed.

Lemma set_header_keys (h : list (string * string)) (k v : string) :
  map fst (Http.set_header h k v)
  = if in_dec string_dec k (map fst h) then map fst h else map fst h ++ [k].
Proof.
  induction h as [| [k' v'] h IH]; cbn [Http.set_header map fst].
  - reflexivity.
  - destruct (String.eqb_spec k' k) as [-> | Hk]; cbn [map fst].
    + destruct (in_dec string_dec k (k :: map fst h)) as [_ | Hn];
        [reflexivity | exfalso; apply Hn; left; reflexivity].
    + rewrite IH.
      destruct (in_dec string_dec k (map fst h)) as [Hin | Hout];
        destruct (in_dec string_dec k (k' :: map fst h)) as [Hin' | Hout'];
        try reflexivity.
      * exfalso. apply Hout'. right. exact Hin.
      * exfalso. destruct Hin' as [E | Hin']; [congruence | contradiction].
Qed.

Lemma set_header_wellFormed (h : list (string * string)) (k v : string) :
  wellFormed h -> wellFormed (Http.set_header h k v).
Proof.
  unfold wellFormed. intros H. rewrite set_header_keys.
  destruct (in_dec string_dec k (map fst h)) as [Hin | Hout]; [exact H |].
  apply NoDup_app; [exact H | repeat constructor; intros [] | ].
  intros x Hx [E | []]. subst. contradiction.
Qed.

Lemma spread_headers_wellFormed (b a : list (string * string)) :
  wellFormed a -> wellFormed (Http.spread_headers a b).
Proof.
  unfold Http.spread_headers. revert a.
  induction b as [| [k v] b IH]; intros a Ha; cbn [fold_left]; [exact Ha |].
  apply IH, set_header_wellFormed, Ha.
Qed.

(** In [{ ...a, ...b }] a property of [b] wins over the same property of
    [a]. *)
Lemma get_spread_headers (b a : list (string * string)) (key : string) :
  wellFormed b ->
  get (Http.spread_headers a b) key
  = match get b key with
    | Some v => Some v
    | None => get a key
    end.
Proof.
  unfold Http.spread_headers, wellFormed. revert a.
  induction b as [| [k v] b IH]; intros a Hb; cbn [fold_left get]; [reflexivity |].
  cbn [map fst] in Hb. inversion Hb as [| ? ? Hk Hb']; subst.
  rewrite (IH _ Hb'), get_set_header. cbn [fst snd].
  destruct (String.eqb_spec k key) as [-> | Hkey].
  - rewrite String.eqb_refl.
    assert (Hnone : get b key = None).
    { clear - Hk. induction b as [| [k' v'] b IH]; [reflexivity |].
      cbn [get]. cbn [map fst] in Hk.
      destruct (String.eqb_spec k' key) as [-> | _].
      - exfalso. apply Hk. left. reflexivity.
      - apply IH. intros H. apply Hk. right. exact H. }
    rewrite Hnone. reflexivity.
  - destruct (String.eqb_spec key k); [congruence |]. reflexivity.
Qed.

Import ClientHeaders.

(** X11.  The headers [executeRequest] sends: with [auth] on and a token in
    the store, [Authorization] is [Bearer <token>], whatever the caller put
    there; any other header is the caller's when the caller gave it, else
    the default ([Content-Type: application/json]).  With [auth] off, or
    without a token, no header comes from the store. *)
Theorem requestHeaders_lookup (s : Stored) (auth : bool)
    (headers : list (string * string)) (key : string) :
  wellFormed headers ->
  let own := match get headers key with
             | Some v => Some v
             | None => get DEFAULT_headers key
             end in
  get (requestHeaders s auth headers) key
  = match (if auth then getAuthToken s else None) with
    | Some token =>
        if String.eqb key "Authorization" then Some ("Bearer " ++ token)%string
        else own
    | None => own
    end
  /\ wellFormed (requestHeaders s auth headers).
Proof.
  intros Hw own. unfold requestHeaders, addAuthHeaders. split.
  - destruct auth; [destruct (getAuthToken s) as [token |] |].
    + rewrite get_spread_headers by (apply set_header_wellFormed; exact Hw).
      rewrite get_set_header.
      destruct (String.eqb key "Authorization"); [reflexivity |].
      rewrite (get_spread_headers DEFAULT_headers key Hw).
      subst own. destruct (get headers key); reflexivity.
    + rewrite get_spread_headers by exact Hw.
      rewrite (get_spread_headers DEFAULT_headers key Hw).
      subst own. destruct (get headers key); reflexivity.
    + rewrite get_spread_headers by constructor. cbn [get].
      apply (get_spread_headers DEFAULT_headers key Hw).
  - apply spread_headers_wellFormed, spread_headers_wellFormed.
    repeat constructor. intros [].
Qed.

Lemma requestHeaders_lookup_witness :
  get (requestHeaders (Session (Some "t0k3n")) true
         [("Authorization", "Basic abc"); ("Accept", "text/plain")])
      "Authorization"
  = Some "Bearer t0k3n".
Proof.
  refine (proj1 (@requestHeaders_lookup (Session (Some "t0k3n")) true
                   [("Authorization", "Basic abc"); ("Accept", "text/plain")]
                   "Authorization" _)).
  repeat constructor; cbn; intuition discriminate.
Defined.

(** X12.  The headers of a request of [utils/http.js] are the client's
    headers overlaid with the headers of the options: a header of the
    options wins, every other header of the client stays.  The headers of
    the client itself are not merged: headers given to [createHttpClient]
    replace the defaults as a whole. *)
Theorem mergeOptions_headers (config : Http.RequestConfig) (options : Http.Partial)
    (key : string) :
  wellFormed (Http.or_else (Http.p_headers options) []) ->
  get (Http.headers (Http.mergeOptions config options)) key
  = match get (Http.or_else (Http.p_headers options) []) key with
    | Some v => Some v
    | None => get (Http.headers config) key
    end
  /\ (wellFormed (Http.headers config) ->
      wellFormed (Http.headers (Http.mergeOptions config options)))
  /\ forall apiUrl h,
       Http.p_headers options = Some h ->
       Http.headers (Http.createHttpClient apiUrl options) = h.
Proof.
  intros Hw. unfold Http.mergeOptions. cbn [Http.headers]. split; [| split].
  - apply get_spread_headers. exact Hw.
  - apply spread_headers_wellFormed.
  - intros apiUrl h Hh. unfold Http.createHttpClient, Http.spread.
    cbn [Http.headers]. rewrite Hh. reflexivity.
Qed.

Lemma mergeOptions_headers_witness :
  get (Http.headers
         (Http.mergeOptions Scenario.client
            (Http.mkPartial None None (Some [("Content-Type", "multipart/form-data")])
                            None None None None None None)))
      "Accept"
  = Some "application/json".
Proof.
  refine (proj1 (@mergeOptions_headers Scenario.client
                   (Http.mkPartial None None (Some [("Content-Type", "multipart/form-data")])
                                   None None None None None None)
                   "Accept" _)).
  repeat constructor. intros [].
Defined.

(** X13.  The request interceptor the module registers sets
    [Authorization] to [Bearer <token>] when [localStorage] holds a token
    that is not empty, and changes nothing else: every other header and
    every other property of the configuration stays as it was; without a
    token the configuration is returned as it is. *)
Theorem authInterceptor_effect (b : Http.Browser) (config : Http.RequestConfig)
    (key : string) :
  let token := match Http.auth_token b with
               | Some t => if String.eqb t "" then None else Some t
               | None => None
               end in
  get (Http.headers (Http.authInterceptor b config)) key
  = match token with
    | Some t =>
        if String.eqb key "Authorization" then Some ("Bearer " ++ t)%string
        else get (Http.headers config) key
    | None => get (Http.headers config) key
    end
  /\ Http.authInterceptor b config
     = Http.mkRequestConfig (Http.baseURL config) (Http.timeout config)
         (Http.headers (Http.authInterceptor b config))
         (Http.retries config) (Http.retryDelay config) (Http.cache config)
         (Http.credentials config) (Http.method config) (Http.body config)
  /\ (token = None -> Http.authInterceptor b config = config).
Proof.
  intros token. subst token. unfold Http.authInterceptor.
  destruct (Http.auth_token b) as [t |]; [destruct (String.eqb t "") |].
  - repeat split; destruct config; reflexivity.
  - cbn [Http.headers]. rewrite get_set_header.
    repeat split. discriminate.
  - repeat split; destruct config; reflexivity.
Qed.

End HeaderFacts.

(** * More properties of [src/utils/http.js] *)

Module HttpMore.
Import Http.

Local Open Scope Z_scope.

(** ** Counting the events of a run *)

Lemma fetchCount_app (a b : list Event) :
  fetchCount (a ++ b) = (fetchCount a + fetchCount b)%nat.
Proof.
  induction a as [| e a IH]; [reflexivity |].
  destruct e; cbn [app fetchCount]; rewrite IH; reflexivity.
Qed.

Lemma errorCalls_app (a b : list Event) :
  errorCalls (a ++ b) = errorCalls a ++ errorCalls b.
Proof.
  induction a as [| e a IH]; [reflexivity |].
  destruct e; cbn [app errorCalls]; rewrite IH; reflexivity.
Qed.

Section Events.

Variable f : Functions.

(** Each chain calls the interceptors of its registry in the order of
    their registration, each one once, and stops at the first one that ends
    the chain. *)
Lemma requestChain_events (l : list Ref) :
  forall c, exists n,
    snd (applyRequestInterceptors f l c) = map CallRequestInterceptor (firstn n l)
    /\ (n <= List.length l)%nat
    /\ ((exists c', fst (applyRequestInterceptors f l c) = Normal c') -> n = List.length l).
Proof.
  induction l as [| i l IH]; intros c.
  - exists 0%nat. cbn. repeat split; lia.
  - cbn [applyRequestInterceptors]. destruct (requestFn f i c) as [c1 | x].
    + destruct (IH c1) as (n & Hev & Hn & Hall).
      destruct (applyRequestInterceptors f l c1) as [r ev]. cbn [fst snd] in *.
      exists (S n). cbn [firstn map List.length]. rewrite Hev.
      repeat split; [lia |]. intros H. rewrite (Hall H). reflexivity.
    + exists 1%nat. cbn. repeat split; [lia |]. intros [c' H]. discriminate H.
Qed.

Lemma responseChain_events (l : list Ref) :
  forall c, exists n,
    snd (applyResponseInterceptors f l c) = map CallResponseInterceptor (firstn n l)
    /\ (n <= List.length l)%nat
    /\ ((exists c', fst (applyResponseInterceptors f l c) = Normal c') -> n = List.length l).
Proof.
  induction l as [| i l IH]; intros c.
  - exists 0%nat. cbn. repeat split; lia.
  - cbn [applyResponseInterceptors]. destruct (responseFn f i c) as [c1 | x].
    + destruct (IH c1) as (n & Hev & Hn & Hall).
      destruct (applyResponseInterceptors f l c1) as [r ev]. cbn [fst snd] in *.
      exists (S n). cbn [firstn map List.length]. rewrite Hev.
      repeat split; [lia |]. intros H. rewrite (Hall H). reflexivity.
    + exists 1%nat. cbn. repeat split; [lia |]. intros [c' H]. discriminate H.
Qed.

Lemma errorChain_events (error : Value) (l : list Ref) :
  forall c, exists n,
    snd (errorLoop f error l c) = map CallErrorInterceptor (firstn n l)
    /\ (n <= List.length l)%nat
    /\ ((exists v, fst (errorLoop f error l c) = Normal v /\ v <> VNull)
        -> n = List.length l).
Proof.
  induction l as [| i l IH]; intros c.
  - exists 0%nat. cbn. repeat split; lia.
  - cbn [errorLoop]. destruct (errorFn f i c) as [result | x].
    + destruct result as [| | s | r | e]; cbn [instanceof_Error];
        try (match goal with
             | |- context [errorLoop f error l ?c1] =>
                 destruct (IH c1) as (n & Hev & Hn & Hall);
                 destruct (errorLoop f error l c1) as [out ev]
             end;
             cbn [fst snd] in *; exists (S n); cbn [firstn map List.length];
             rewrite Hev; repeat split; [lia |];
             intros H; rewrite (Hall H); reflexivity).
      exists 1%nat. cbn. repeat split; [lia |].
      intros [v [H Hv]]. inversion H. congruence.
    + destruct (nullish x || nullish error).
      * exists 1%nat. cbn. repeat split; [lia |]. intros [v [H _]]. discriminate H.
      * destruct (IH c) as (n & Hev & Hn & Hall).
        destruct (errorLoop f error l c) as [out ev]. cbn [fst snd] in *.
        exists (S n). cbn [firstn map List.length]. rewrite Hev.
        repeat split; [lia |]. intros H. rewrite (Hall H). reflexivity.
Qed.

Lemma fetchCount_map (C : Ref -> Event) (l : list Ref) :
  (forall i u a, C i <> CallFetch u a) -> fetchCount (map C l) = 0%nat.
Proof.
  intros HC. induction l as [| i l IH]; [reflexivity |].
  cbn [map fetchCount]. specialize (HC i).
  destruct (C i); try exact IH. exfalso. eapply HC. reflexivity.
Qed.

Lemma errorCalls_map (C : Ref -> Event) (l : list Ref) :
  (forall i j, C i <> CallErrorInterceptor j) -> errorCalls (map C l) = [].
Proof.
  intros HC. induction l as [| i l IH]; [reflexivity |].
  cbn [map errorCalls]. specialize (HC i).
  destruct (C i); try exact IH. exfalso. eapply HC. reflexivity.
Qed.

Lemma requestChain_quiet (l : list Ref) (c : RequestConfig) :
  fetchCount (snd (applyRequestInterceptors f l c)) = 0%nat
  /\ errorCalls (snd (applyRequestInterceptors f l c)) = [].
Proof.
  destruct (requestChain_events l c) as (n & -> & _).
  split; [apply fetchCount_map | apply errorCalls_map]; discriminate.
Qed.

Lemma responseChain_quiet (l : list Ref) (c : Envelope) :
  fetchCount (snd (applyResponseInterceptors f l c)) = 0%nat
  /\ errorCalls (snd (applyResponseInterceptors f l c)) = [].
Proof.
  destruct (responseChain_events l c) as (n & -> & _).
  split; [apply fetchCount_map | apply errorCalls_map]; discriminate.
Qed.

Lemma errorChain_quiet (error : Value) (l : list Ref) (c : Value) :
  fetchCount (snd (errorLoop f error l c)) = 0%nat.
Proof.
  destruct (errorChain_events error l c) as (n & -> & _).
  apply fetchCount_map; discriminate.
Qed.

Lemma tryBlock_quiet (g : Registries) (settled : Completion Response Value) :
  fetchCount (snd (tryBlock f g settled)) = 0%nat
  /\ errorCalls (snd (tryBlock f g settled)) = [].
Proof.
  unfold tryBlock. destruct settled as [response | x]; [| split; reflexivity].
  destruct (ok response).
  - destruct (processResponse response) as [data | e]; [| split; reflexivity].
    pose proof (responseChain_quiet (responseInterceptors g)
                  (mkEnvelope data (Js.status response) (Js.headers response))) as H.
    destruct (applyResponseInterceptors f (responseInterceptors g) _) as [[r | x] ev];
      exact H.
  - destruct (nonRetryable (Js.status response)); split; reflexivity.
Qed.

End Events.

(** ** The passes of the loop *)

Section Passes.

Variable f : Functions.
Variable g : Registries.
Variable net : Z -> Completion Response Value.
Variable url : string.
Variable retries retryDelay : Z.

Lemma attempts_fetchCount (fuel : nat) :
  forall (attempt : Z) (lastError : Value),
    Z.of_nat (fetchCount (snd (attempts fuel f g net url retries retryDelay attempt lastError)))
    <= Z.max 0 (retries + 1 - attempt).
Proof.
  induction fuel as [| fuel IH]; intros attempt lastError.
  - cbn [attempts]. destruct (attempt <=? retries); cbn; lia.
  - destruct (Z.leb_spec attempt retries) as [Hle | Hgt];
      [| rewrite HttpFacts.attempts_done by lia; cbn; lia].
    rewrite HttpFacts.attempts_pass by exact Hle.
    pose proof (proj1 (tryBlock_quiet f g (net attempt))) as Hq.
    destruct (fst (tryBlock f g (net attempt))) as [r | apiError | error].
    + cbn [snd fetchCount]. rewrite Hq. lia.
    + cbn [snd fetchCount]. rewrite fetchCount_app, Hq.
      specialize (IH (attempt + 1) (VApiError apiError)). lia.
    + destruct (catchBlock error) as [lastError' | x];
        [| cbn [snd fetchCount]; rewrite Hq; lia].
      destruct (attempt =? retries); [cbn [snd fetchCount]; rewrite Hq; lia |].
      cbn [snd fetchCount]. rewrite fetchCount_app, Hq. cbn [fetchCount].
      specialize (IH (attempt + 1) lastError'). lia.
Qed.

Lemma attempts_errorCalls (fuel : nat) :
  forall (attempt : Z) (lastError : Value),
    errorCalls (snd (attempts fuel f g net url retries retryDelay attempt lastError)) = [].
Proof.
  induction fuel as [| fuel IH]; intros attempt lastError.
  - cbn [attempts]. destruct (attempt <=? retries); reflexivity.
  - destruct (Z.leb_spec attempt retries) as [Hle | Hgt];
      [| rewrite HttpFacts.attempts_done by lia; reflexivity].
    rewrite HttpFacts.attempts_pass by exact Hle.
    pose proof (proj2 (tryBlock_quiet f g (net attempt))) as Hq.
    destruct (fst (tryBlock f g (net attempt))) as [r | apiError | error].
    + cbn [snd errorCalls]. exact Hq.
    + cbn [snd errorCalls]. rewrite errorCalls_app, Hq. apply IH.
    + destruct (catchBlock error) as [lastError' | x]; [| cbn [snd errorCalls]; exact Hq].
      destruct (attempt =? retries); [cbn [snd errorCalls]; exact Hq |].
      cbn [snd errorCalls]. rewrite errorCalls_app, Hq. cbn [errorCalls app]. apply IH.
Qed.

Lemma tryBlock_Return (settled : Completion Response Value) (r : Envelope) :
  fst (tryBlock f g settled) = Return r ->
  exists response data,
    settled = Normal response
    /\ ok response = true
    /\ processResponse response = Normal data
    /\ fst (applyResponseInterceptors f (responseInterceptors g)
              (mkEnvelope data (Js.status response) (Js.headers response)))
       = Normal r.
Proof.
  unfold tryBlock. destruct settled as [response | x]; [| discriminate].
  destruct (ok response) eqn:Hok.
  - destruct (processResponse response) as [data | e] eqn:Hp; [| discriminate].
    destruct (applyResponseInterceptors f (responseInterceptors g) _) as [[r' | x] ev] eqn:E;
      [| discriminate].
    cbn [fst]. intros H. inversion H; subst.
    exists response, data. rewrite E. repeat split; assumption.
  - destruct (nonRetryable (Js.status response)); discriminate.
Qed.

(** The loop returns only from a pass whose answer is [ok] and readable;
    that pass is the last one. *)
Lemma attempts_returned (fuel : nat) :
  forall (attempt : Z) (lastError : Value) (r : Envelope) (ev : list Event),
    attempts fuel f g net url retries retryDelay attempt lastError = (Returned r, ev) ->
    exists k response data,
      attempt <= k <= retries
      /\ net k = Normal response
      /\ ok response = true
      /\ processResponse response = Normal data
      /\ fst (applyResponseInterceptors f (responseInterceptors g)
                (mkEnvelope data (Js.status response) (Js.headers response)))
         = Normal r
      /\ fetchCount ev = Z.to_nat (k - attempt + 1).
Proof.
  induction fuel as [| fuel IH]; intros attempt lastError r ev H.
  - cbn [attempts] in H. destruct (attempt <=? retries); discriminate.
  - destruct (Z.leb_spec attempt retries) as [Hle | Hgt];
      [| rewrite HttpFacts.attempts_done in H by lia; discriminate].
    rewrite HttpFacts.attempts_pass in H by exact Hle.
    pose proof (proj1 (tryBlock_quiet f g (net attempt))) as Hq.
    destruct (fst (tryBlock f g (net attempt))) as [r0 | apiError | error] eqn:Htry.
    + inversion H; subst.
      destruct (tryBlock_Return _ Htry) as (response & data & Hn & Hok & Hp & Hr).
      exists attempt, response, data.
      repeat split; try assumption; try lia.
      cbn [fetchCount]. rewrite Hq. lia.
    + destruct (attempts fuel f g net url retries retryDelay (attempt + 1)
                         (VApiError apiError)) as [out ev'] eqn:E.
      cbn [fst snd] in H. inversion H; subst.
      destruct (IH _ _ _ _ E) as (k & response & data & Hk & Hrest).
      exists k, response, data. split; [lia |].
      destruct Hrest as (? & ? & ? & ? & Hc). repeat split; try assumption.
      cbn [fetchCount]. rewrite fetchCount_app, Hq, Hc. lia.
    + destruct (catchBlock error) as [lastError' | x]; [| discriminate].
      destruct (attempt =? retries); [discriminate |].
      destruct (attempts fuel f g net url retries retryDelay (attempt + 1) lastError')
        as [out ev'] eqn:E.
      cbn [fst snd] in H. inversion H; subst.
      destruct (IH _ _ _ _ E) as (k & response & data & Hk & Hrest).
      exists k, response, data. split; [lia |].
      destruct Hrest as (? & ? & ? & ? & Hc). repeat split; try assumption.
      cbn [fetchCount]. rewrite fetchCount_app, Hq. cbn [fetchCount]. rewrite Hc. lia.
Qed.

End Passes.

(** X14.  [request] calls [fetch] at most [retries + 1] times, [retries]
    being the one of the configuration the request interceptors return, and
    not at all when a request interceptor throws or [retries] is
    negative. *)
Theorem request_fetches (f : Functions) (g : Registries) (config : RequestConfig)
    (net : Z -> Completion Response Value) (url : string) (options : Partial) :
  Z.of_nat (fetchCount (snd (request f g config net url options)))
  <= match fst (applyRequestInterceptors f (requestInterceptors g)
                  (mergeOptions config options)) with
     | Normal requestConfig => Z.max 0 (Http.retries requestConfig + 1)
     | Throw _ => 0
     end.
Proof.
  unfold request.
  pose proof (proj1 (requestChain_quiet f (requestInterceptors g)
                       (mergeOptions config options))) as Hq.
  destruct (applyRequestInterceptors f (requestInterceptors g) (mergeOptions config options))
    as [[rc | x] ev]; cbn [fst snd] in *; [| rewrite Hq; lia].
  pose proof (attempts_fetchCount f g net (resolveUrl config url) (Http.retries rc)
                (retryDelay rc) (Z.to_nat (Http.retries rc + 1)) 0 VUndefined) as Hc.
  destruct (attempts _ f g net _ _ _ 0 VUndefined) as [[r | lastError | x |] ev'];
    cbn [snd] in *; try (rewrite fetchCount_app, Hq; lia).
  pose proof (errorChain_quiet f lastError (errorInterceptors g) lastError) as He.
  unfold applyErrorInterceptors.
  destruct (errorLoop f lastError (errorInterceptors g) lastError) as [[v | x] ev''];
    [destruct v |]; cbn [snd] in *; rewrite !fetchCount_app, Hq, He; lia.
Qed.

(** X15.  [request] resolves with data only from a pass whose answer is
    [ok] and whose body could be read: the data are what the response
    interceptors make of that answer, the pass is the last call of [fetch],
    and no error interceptor has been called. *)
Theorem request_data (f : Functions) (g : Registries) (config : RequestConfig)
    (net : Z -> Completion Response Value) (url : string) (options : Partial)
    (r : Envelope) :
  fst (request f g config net url options) = Normal (Data r) ->
  errorCalls (snd (request f g config net url options)) = []
  /\ exists requestConfig k response data,
       fst (applyRequestInterceptors f (requestInterceptors g)
              (mergeOptions config options)) = Normal requestConfig
       /\ 0 <= k <= Http.retries requestConfig
       /\ net k = Normal response
       /\ ok response = true
       /\ processResponse response = Normal data
       /\ fst (applyResponseInterceptors f (responseInterceptors g)
                 (mkEnvelope data (Js.status response) (Js.headers response)))
          = Normal r
       /\ fetchCount (snd (request f g config net url options)) = Z.to_nat (k + 1).
Proof.
  unfold request.
  pose proof (requestChain_quiet f (requestInterceptors g)
                (mergeOptions config options)) as [Hq Hqe].
  destruct (applyRequestInterceptors f (requestInterceptors g) (mergeOptions config options))
    as [[rc | x] ev]; cbn [fst snd] in *; [| discriminate].
  pose proof (attempts_errorCalls f g net (resolveUrl config url) (Http.retries rc)
                (retryDelay rc) (Z.to_nat (Http.retries rc + 1)) 0 VUndefined) as Hce.
  destruct (attempts _ f g net _ _ _ 0 VUndefined) as [[r' | lastError | x |] ev'] eqn:E;
    cbn [fst snd] in *; try discriminate.
  - intros H. inversion H; subst.
    destruct (attempts_returned _ _ _ _ _ _ _ _ _ E)
      as (k & response & data & Hk & Hn & Hok & Hp & Hr & Hc).
    split; [rewrite errorCalls_app, Hqe, Hce; reflexivity |].
    exists rc, k, response, data. repeat split; try assumption; try lia.
    rewrite fetchCount_app, Hq, Hc. f_equal. lia.
  - destruct (applyErrorInterceptors f (errorInterceptors g) lastError) as [[v | x] ev''];
      [destruct v |]; discriminate.
Qed.

Lemma request_data_witness :
  errorCalls (snd (request Scenario.passive (mkRegistries [] [] [0%nat]) Scenario.client
                           Cases.flakyNet "/flaky" (Scenario.withRetries 3))) = []
  /\ exists requestConfig k response data,
       fst (applyRequestInterceptors Scenario.passive []
              (mergeOptions Scenario.client (Scenario.withRetries 3)))
       = Normal requestConfig
       /\ 0 <= k <= Http.retries requestConfig
       /\ Cases.flakyNet k = Normal response
       /\ ok response = true
       /\ processResponse response = Normal data
       /\ fst (applyResponseInterceptors Scenario.passive []
                 (mkEnvelope data (Js.status response) (Js.headers response)))
          = Normal (mkEnvelope (BText "hi") 200 [("content-type", "text/plain")])
       /\ fetchCount (snd (request Scenario.passive (mkRegistries [] [] [0%nat])
                                   Scenario.client Cases.flakyNet "/flaky"
                                   (Scenario.withRetries 3)))
          = Z.to_nat (k + 1).
Proof.
  exact (@request_data Scenario.passive (mkRegistries [] [] [0%nat]) Scenario.client
           Cases.flakyNet "/flaky" (Scenario.withRetries 3)
           (mkEnvelope (BText "hi") 200 [("content-type", "text/plain")]) eq_refl).
Defined.

(** X16.  With a negative [retries] the loop is not entered: [request]
    calls [fetch] not once and hands [undefined] to the error interceptors;
    with no error interceptor registered it throws [undefined]. *)
Theorem negative_retries (f : Functions) (g : Registries) (config : RequestConfig)
    (net : Z -> Completion Response Value) (url : string) (options : Partial)
    (requestConfig : RequestConfig) :
  fst (applyRequestInterceptors f (requestInterceptors g) (mergeOptions config options))
  = Normal requestConfig ->
  Http.retries requestConfig < 0 ->
  fetchCount (snd (request f g config net url options)) = 0%nat
  /\ fst (request f g config net url options)
     = match fst (applyErrorInterceptors f (errorInterceptors g) VUndefined) with
       | Normal VNull => Normal Null
       | Normal processedError => Throw processedError
       | Throw x => Throw x
       end
  /\ (errorInterceptors g = [] ->
      fst (request f g config net url options) = Throw VUndefined).
Proof.
  intros Hreq Hneg. unfold request.
  pose proof (proj1 (requestChain_quiet f (requestInterceptors g)
                       (mergeOptions config options))) as Hq.
  destruct (applyRequestInterceptors f (requestInterceptors g) (mergeOptions config options))
    as [c ev]. cbn [fst snd] in *. subst c.
  rewrite HttpFacts.attempts_done by lia.
  pose proof (errorChain_quiet f VUndefined (errorInterceptors g) VUndefined) as He.
  assert (Hempty : errorInterceptors g = [] ->
                   applyErrorInterceptors f (errorInterceptors g) VUndefined
                   = (Normal VUndefined, [])) by (intros ->; reflexivity).
  unfold applyErrorInterceptors in *.
  destruct (errorLoop f VUndefined (errorInterceptors g) VUndefined) as [[v | x] ev''];
    [destruct v |]; cbn [fst snd] in *;
    (split; [rewrite !fetchCount_app, Hq, He; reflexivity |]);
    (split; [reflexivity |]); intros H; specialize (Hempty H); inversion Hempty;
    reflexivity.
Qed.

Lemma negative_retries_witness :
  fetchCount (snd (request Scenario.passive (mkRegistries [] [] []) Scenario.client
                           (fun _ => Normal Scenario.notFound) "/missing"
                           (Scenario.withRetries (-1)))) = 0%nat
  /\ fst (request Scenario.passive (mkRegistries [] [] []) Scenario.client
                  (fun _ => Normal Scenario.notFound) "/missing"
                  (Scenario.withRetries (-1)))
     = match fst (applyErrorInterceptors Scenario.passive [] VUndefined) with
       | Normal VNull => Normal Null
       | Normal processedError => Throw processedError
       | Throw x => Throw x
       end
  /\ (errorInterceptors (mkRegistries [] [] []) = [] ->
      fst (request Scenario.passive (mkRegistries [] [] []) Scenario.client
                   (fun _ => Normal Scenario.notFound) "/missing"
                   (Scenario.withRetries (-1)))
      = Throw VUndefined).
Proof.
  refine (@negative_retries Scenario.passive (mkRegistries [] [] []) Scenario.client
            (fun _ => Normal Scenario.notFound) "/missing" (Scenario.withRetries (-1))
            (mergeOptions Scenario.client (Scenario.withRetries (-1))) eq_refl _).
  cbn. lia.
Defined.

(** X17.  An answer that is not [ok] and whose status is none of 400, 401,
    403, 404 and 422 (a 500 or a 429, say) is kept as [lastError] and the
    next pass starts at once: no delay is waited before it, and after the
    last pass it is the error the loop is left with. *)
Theorem stored_answer_is_retried_at_once (f : Functions) (g : Registries)
    (net : Z -> Completion Response Value) (url : string) (retries retryDelay : Z)
    (fuel : nat) (attempt : Z) (lastError : Value) (r : Response) :
  net attempt = Normal r ->
  ok r = false ->
  nonRetryable (Js.status r) = false ->
  attempt <= retries ->
  attempts (S fuel) f g net url retries retryDelay attempt lastError
  = (fst (attempts fuel f g net url retries retryDelay (attempt + 1)
               (VApiError (responseError r))),
     CallFetch url attempt
     :: snd (attempts fuel f g net url retries retryDelay (attempt + 1)
                 (VApiError (responseError r))))
  /\ (attempt = retries ->
      attempts (S fuel) f g net url retries retryDelay attempt lastError
      = (Left (VApiError (responseError r)), [CallFetch url attempt])).
Proof.
  intros Hnet Hok Hlisted Hle.
  assert (E : attempts (S fuel) f g net url retries retryDelay attempt lastError
              = (fst (attempts fuel f g net url retries retryDelay (attempt + 1)
                        (VApiError (responseError r))),
                 CallFetch url attempt
                 :: snd (attempts fuel f g net url retries retryDelay (attempt + 1)
                           (VApiError (responseError r))))).
  { rewrite HttpFacts.attempts_pass by exact Hle.
    unfold tryBlock. rewrite Hnet, Hok, Hlisted. reflexivity. }
  split; [exact E |].
  intros ->. rewrite E, HttpFacts.attempts_done by lia. reflexivity.
Qed.

Lemma stored_answer_is_retried_at_once_witness :
  attempts 2 Scenario.passive (mkRegistries [] [] []) (fun _ => Normal Cases.unavailable)
           "/busy" 1 1000 0 VUndefined
  = (Left (VApiError (responseError Cases.unavailable)),
     [CallFetch "/busy" 0; CallFetch "/busy" 1]).
Proof.
  rewrite (proj1 (@stored_answer_is_retried_at_once Scenario.passive
                    (mkRegistries [] [] []) (fun _ => Normal Cases.unavailable)
                    "/busy" 1 1000 1 0 VUndefined Cases.unavailable
                    eq_refl eq_refl eq_refl ltac:(lia))).
  reflexivity.
Defined.

(** ** The chains *)



Lemma errorLoop_result (f : Functions) (error : Value) (l : list Ref) :
  nullish error = false ->
  (forall i v x, errorFn f i v = Throw x -> nullish x = false) ->
  forall c, exists v,
    fst (errorLoop f error l c) = Normal v
    /\ (v = VNull \/ v = c
        \/ (instanceof_Error v = true
            /\ exists i cur, In i l /\ errorFn f i cur = Normal v)).
Proof.
  intros He Hf. induction l as [| i l IH]; intros c.
  - exists c. cbn. auto.
  - cbn [errorLoop]. destruct (errorFn f i c) as [result | x] eqn:E.
    + destruct result as [| | s | r | e]; cbn [instanceof_Error];
        try (exists VNull; cbn; auto; fail);
        match goal with
        | |- context [errorLoop f error l ?c1] =>
            destruct (IH c1) as (v & Hv & Hcase);
            destruct (errorLoop f error l c1) as [out ev]
        end;
        cbn [fst] in *; exists v; (split; [exact Hv |]);
        (destruct Hcase as [-> | [-> | (Hi & j & cur & Hj & Hcur)]];
         [auto
         | try (right; left; reflexivity);
           try (right; right; split; [reflexivity |]; exists i, c;
                split; [left; reflexivity | exact E])
         | right; right; split; [exact Hi |]; exists j, cur;
           split; [right; exact Hj | exact Hcur]]).
    + rewrite (Hf _ _ _ E), He. cbn [orb].
      destruct (IH c) as (v & Hv & Hcase).
      destruct (errorLoop f error l c) as [out ev]. cbn [fst] in *.
      exists v. split; [exact Hv |].
      destruct Hcase as [-> | [-> | (Hi & j & cur & Hj & Hcur)]]; auto.
      right; right. split; [exact Hi |]. exists j, cur. split; [right; exact Hj | exact Hcur].
Qed.

(** X20.  When neither the request error nor anything an error interceptor
    throws is [undefined] or [null], [applyErrorInterceptors] does not
    throw, and what it returns is [null], or the error it was given, or an
    [Error] object that one of the registered interceptors returned. *)
Theorem error_chain_result (f : Functions) (l : list Ref) (error : Value) :
  nullish error = false ->
  (forall i v x, errorFn f i v = Throw x -> nullish x = false) ->
  exists v,
    fst (applyErrorInterceptors f l error) = Normal v
    /\ (v = VNull \/ v = error
        \/ (instanceof_Error v = true
            /\ exists i cur, In i l /\ errorFn f i cur = Normal v)).
Proof.
  intros He Hf. apply errorLoop_result; assumption.
Qed.

Lemma error_chain_result_witness :
  exists v,
    fst (applyErrorInterceptors Scenario.handlingErrors [2%nat; 0%nat; 3%nat] Scenario.boom)
    = Normal v
    /\ (v = VNull \/ v = Scenario.boom
        \/ (instanceof_Error v = true
            /\ exists i cur, In i [2%nat; 0%nat; 3%nat]
                             /\ errorFn Scenario.handlingErrors i cur = Normal v)).
Proof.
  apply error_chain_result; [reflexivity |].
  intros i v x. cbn.
  destruct (Nat.eqb i 0); [intros H; inversion H; reflexivity |].
  destruct (Nat.eqb i 1); discriminate.
Defined.

(** ** The registries again *)

Lemma first_occurrence (l : list Ref) (x : Ref) :
  In x l -> exists l1 l2, l = l1 ++ x :: l2 /\ ~ In x l1.
Proof.
  induction l as [| y l IH]; intros H; [destruct H |].
  destruct (Nat.eq_dec y x) as [-> | Hne].
  - exists [], l. split; [reflexivity | intros []].
  - destruct H as [E | H]; [contradiction |].
    destruct (IH H) as (l1 & l2 & -> & Hn).
    exists (y :: l1), l2. split; [reflexivity |].
    intros [E | Hin]; [contradiction | exact (Hn Hin)].
Qed.

(** X21.  Adding an interceptor and calling the returned function at once
    gives the registries back as they were, when the interceptor was not
    registered before.  When it was, the call takes out the earlier
    registration, and the interceptor now stands at the end of its
    registry. *)
Theorem add_then_remove (c : Chain) (i : Ref) (g : Registries) :
  (~ In i (registry c g) ->
   snd (addInterceptor c i g) (fst (addInterceptor c i g)) = g)
  /\ (forall l1 l2,
         registry c g = l1 ++ i :: l2 -> ~ In i l1 ->
         registry c (snd (addInterceptor c i g) (fst (addInterceptor c i g)))
         = l1 ++ l2 ++ [i]).
Proof.
  destruct (HttpFacts.addInterceptor_fst c i g) as [Hadd Hkeep].
  destruct (HttpFacts.addInterceptor_snd c i g (fst (addInterceptor c i g)))
    as [Hrm Hoth].
  split.
  - intros Hn. apply HttpFacts.registries_eq. intros c'.
    destruct (HttpFacts.Chain_eq_dec c' c) as [-> | Hc].
    + rewrite Hrm, Hadd.
      replace (registry c g ++ [i]) with (registry c g ++ i :: []) by reflexivity.
      rewrite HttpFacts.remover_first by exact Hn. apply app_nil_r.
    + rewrite (Hoth c' Hc). apply Hkeep. exact Hc.
  - intros l1 l2 Hreg Hn. rewrite Hrm, Hadd, Hreg, <- app_assoc. cbn [app].
    apply HttpFacts.remover_first. exact Hn.
Qed.

Lemma add_then_remove_witness :
  snd (addInterceptor ErrorChain 9%nat (mkRegistries [1%nat] [2%nat] [3%nat; 4%nat]))
      (fst (addInterceptor ErrorChain 9%nat (mkRegistries [1%nat] [2%nat] [3%nat; 4%nat])))
  = mkRegistries [1%nat] [2%nat] [3%nat; 4%nat].
Proof.
  apply (proj1 (add_then_remove ErrorChain 9%nat
                  (mkRegistries [1%nat] [2%nat] [3%nat; 4%nat]))).
  cbn. intuition discriminate.
Defined.

(** X22.  The function returned by an [add] never touches another
    interceptor: every other interceptor is in the registry as often as
    before, the removed one once less (if it was there), and the registry
    gets shorter by at most one entry. *)
Theorem remover_keeps_others (i : Ref) (l : list Ref) :
  (forall x, x <> i ->
     count_occ Nat.eq_dec (remover i l) x = count_occ Nat.eq_dec l x)
  /\ count_occ Nat.eq_dec (remover i l) i = Nat.pred (count_occ Nat.eq_dec l i)
  /\ List.length (remover i l)
     = (List.length l - (if in_dec Nat.eq_dec i l then 1 else 0))%nat.
Proof.
  destruct (in_dec Nat.eq_dec i l) as [Hin | Hout].
  - destruct (first_occurrence _ _ Hin) as (l1 & l2 & -> & Hn).
    rewrite HttpFacts.remover_first by exact Hn.
    repeat split.
    + intros x Hx. rewrite !count_occ_app. cbn [count_occ].
      destruct (Nat.eq_dec i x); [congruence | reflexivity].
    + rewrite !count_occ_app. cbn [count_occ].
      destruct (Nat.eq_dec i i); [| congruence]. lia.
    + rewrite !length_app. cbn [List.length]. lia.
  - rewrite HttpFacts.remover_absent by exact Hout.
    repeat split.
    + rewrite (proj1 (count_occ_not_In Nat.eq_dec l i) Hout). reflexivity.
    + lia.
Qed.

End HttpMore.

(** * Properties of [src/hooks/useApi.js] *)

Module HookFacts.
Import Client Hook.

Lemma getProp_setProp (p : Props) (k key : string) (v : Arg) :
  getProp (setProp p k v) key = if String.eqb key k then Some v else getProp p key.
Proof.
  induction p as [| [k' v'] p IH]; cbn [setProp getProp].
  - rewrite String.eqb_sym. reflexivity.
  - destruct (String.eqb_spec k' k) as [-> | Hk]; cbn [getProp].
    + destruct (String.eqb_spec k key) as [-> | Hkey].
      * rewrite String.eqb_refl. reflexivity.
      * destruct (String.eqb_spec key k); [congruence | reflexivity].
    + destruct (String.eqb_spec k' key) as [-> | Hkey].
      * destruct (String.eqb_spec key k); [congruence | reflexivity].
      * exact IH.
Qed.

Lemma setProp_keys (p : Props) (k : string) (v : Arg) :
  map fst (setProp p k v)
  = if in_dec string_dec k (map fst p) then map fst p else map fst p ++ [k].
Proof.
  induction p as [| [k' v'] p IH]; cbn [setProp map fst].
  - reflexivity.
  - destruct (String.eqb_spec k' k) as [-> | Hk]; cbn [map fst].
    + destruct (in_dec string_dec k (k :: map fst p)) as [_ | Hn];
        [reflexivity | exfalso; apply Hn; left; reflexivity].
    + rewrite IH.
      destruct (in_dec string_dec k (map fst p)) as [Hin | Hout];
        destruct (in_dec string_dec k (k' :: map fst p)) as [Hin' | Hout'];
        try reflexivity.
      * exfalso. apply Hout'. right. exact Hin.
      * exfalso. destruct Hin' as [E | Hin']; [congruence | contradiction].
Qed.

Lemma setProp_wellFormed (p : Props) (k : string) (v : Arg) :
  wellFormed p -> wellFormed (setProp p k v).
Proof.
  unfold wellFormed. intros H. rewrite setProp_keys.
  destruct (in_dec string_dec k (map fst p)) as [Hin | Hout]; [exact H |].
  apply NoDup_app; [exact H | repeat constructor; intros [] | ].
  intros x Hx [E | []]. subst. contradiction.
Qed.

Lemma getProp_absent (p : Props) (key : string) :
  ~ In key (map fst p) -> getProp p key = None.
Proof.
  induction p as [| [k v] p IH]; intros Hn; [reflexivity |].
  cbn [getProp]. cbn [map fst] in Hn.
  destruct (String.eqb_spec k key) as [-> | _].
  - exfalso. apply Hn. left. reflexivity.
  - apply IH. intros H. apply Hn. right. exact H.
Qed.

(** In [{ ...a, ...b }] a property of [b] wins over the same property of
    [a]. *)
Lemma getProp_spread (b a : Props) (key : string) :
  wellFormed b ->
  getProp (spread a b) key
  = match getProp b key with
    | Some v => Some v
    | None => getProp a key
    end.
Proof.
  unfold spread, wellFormed. revert a.
  induction b as [| [k v] b IH]; intros a Hb; cbn [fold_left getProp]; [reflexivity |].
  cbn [map fst] in Hb. inversion Hb as [| ? ? Hk Hb']; subst.
  rewrite (IH _ Hb'), getProp_setProp. cbn [fst snd].
  destruct (String.eqb_spec k key) as [-> | Hkey].
  - rewrite String.eqb_refl, (getProp_absent _ _ Hk). reflexivity.
  - destruct (String.eqb_spec key k); [congruence |]. reflexivity.
Qed.

(** X23.  Where the abort signal of [execute] ends up.  With [useApiGet]
    it never reaches [apiRequest] as [signal]: it is sent inside [params]
    ([execute()] makes [params] the object [{ signal }]).  With
    [useApiPost], [execute(data)] with a plain object as [data] puts the
    signal into the body and gives [apiRequest] no [signal]; with data that
    are no such object, or with an options object after the data, the
    signal is the [signal] of [apiRequest].  With [useApiDelete],
    [execute()] passes it on. *)
Theorem execute_signal_placement (c : nat) :
  (forall params args,
      getProp (useApiGet_apiCall params (apiCallArgs args c)) "signal" = None)
  /\ (forall params,
         getProp (useApiGet_apiCall params (apiCallArgs [] c)) "params"
         = Some (AObject [("signal", ASignal c)]))
  /\ (forall data,
         getProp (useApiPost_apiCall (apiCallArgs [data] c)) "signal"
         = (if isOptionsObject data then None else Some (ASignal c))
         /\ getProp (useApiPost_apiCall (apiCallArgs [data] c)) "body"
            = Some (if isOptionsObject data
                    then AObject (setProp (ownProps data) "signal" (ASignal c))
                    else data))
  /\ (forall data options,
         isOptionsObject options = true ->
         wellFormed (ownProps options) ->
         getProp (useApiPost_apiCall (apiCallArgs [data; options] c)) "signal"
         = Some (ASignal c))
  /\ getProp (useApiDelete_apiCall (apiCallArgs [] c)) "signal" = Some (ASignal c).
Proof.
  split; [| split; [| split; [| split]]].
  - intros params args. reflexivity.
  - intros params. reflexivity.
  - intros data. destruct data; split; reflexivity.
  - intros data options Hobj Hwf.
    unfold apiCallArgs. cbn [last removelast app]. rewrite Hobj.
    unfold useApiPost_apiCall, parameter, api_post. cbn [nth or_default ownProps].
    rewrite getProp_spread by (apply setProp_wellFormed; exact Hwf).
    rewrite getProp_setProp. reflexivity.
  - reflexivity.
Qed.

(** ** [execute] *)

Lemma catchBlock_cases (h : Callbacks) (st : HookState) (err : Value ApiError) :
  (catchBlock h st err = (Throw (VError TypeError_property), st, [])
   /\ (err = VUndefined \/ err = VNull))
  \/ (catchBlock h st err = (Normal CanceledStatus, st, [])
      /\ isCanceled err = true)
  \/ (catchBlock h st err
      = (Throw (rethrown h err),
         mkHookState (st_data st) false err (st_controller st),
         [report h err])
      /\ isCanceled err = false /\ err <> VUndefined /\ err <> VNull).
Proof.
  unfold catchBlock, rethrown, report.
  destruct err as [| | s | r | e]; auto.
  - right; right. cbn [isCanceled].
    destruct (onError h) as [f |]; [destruct (f (VString s)) |];
      (split; [reflexivity | repeat split; discriminate]).
  - right; right. cbn [isCanceled].
    destruct (onError h) as [f |]; [destruct (f (VError r)) |];
      (split; [reflexivity | repeat split; discriminate]).
  - destruct (isCanceled (VApiError e)) eqn:E; [right; left; auto |].
    right; right.
    destruct (onError h) as [f |]; [destruct (f (VApiError e)) |];
      (split; [reflexivity | repeat split; discriminate]).
Qed.

Lemma finallyBlock_clears (c : nat) (d : option Payload) (l : bool)
    (e : Value ApiError) :
  finallyBlock c (mkHookState d l e (Some c)) = mkHookState d l e None.
Proof.
  unfold finallyBlock. cbn [st_controller st_data st_loading st_error].
  rewrite Nat.eqb_refl. reflexivity.
Qed.

Lemma reports_app (a b : list Effect) : reports (a ++ b) = reports a ++ reports b.
Proof. apply filter_app. Qed.

Lemma reports_aborted (o : option nat) :
  reports (match o with Some c => [Abort c] | None => [] end) = [].
Proof. destruct o; reflexivity. Qed.

Lemma reports_report (h : Callbacks) (err : Value ApiError) :
  reports [report h err] = [report h err].
Proof. unfold report. destruct (onError h); reflexivity. Qed.

(** X24.  [execute] first aborts the controller of the call before, if the
    state holds one, then calls [apiCall] once, with the arguments and the
    signal of a new controller.  The new controller is in the state as long
    as the call has not settled, and out of it once it has, however it
    ended. *)
Theorem execute_controller (h : Callbacks) (c : nat) (st : HookState)
    (args : list Arg) :
  exists rest,
    snd (execute h c st args)
    = match st_controller st with
      | Some previous => [Abort previous]
      | None => []
      end ++ CallApi (apiCallArgs args c) :: rest
    /\ Forall (fun e => match e with
                        | Abort _ | CallApi _ => False
                        | _ => True
                        end) rest
    /\ st_controller (snd (fst (execute h c st args)))
       = match fst (fst (execute h c st args)) with
         | Some _ => None
         | None => Some c
         end.
Proof.
  unfold execute. cbn [st_error st_controller].
  destruct (apiCall h (apiCallArgs args c)) as [[response | err] |].
  - destruct (onSuccess h) as [f |].
    + destruct (f response) as [u | x].
      * exists [OnSuccess response]. cbn [fst snd].
        rewrite finallyBlock_clears. repeat split. repeat constructor.
      * destruct (catchBlock_cases h
                    (mkHookState (Some (success_data response)) false VNull (Some c)) x)
          as [[-> _] | [[-> _] | [-> _]]]; cbn [fst snd st_data st_controller];
          rewrite finallyBlock_clears;
          eexists; (split; [reflexivity |]); split; try reflexivity;
          repeat constructor.
        unfold report. destruct (onError h); exact I.
    + exists []. cbn [fst snd]. rewrite finallyBlock_clears. repeat split. constructor.
  - destruct (catchBlock_cases h (mkHookState (st_data st) true VNull (Some c)) err)
      as [[-> _] | [[-> _] | [-> _]]]; cbn [fst snd st_data st_controller];
      rewrite finallyBlock_clears;
      eexists; (split; [reflexivity |]); split; try reflexivity;
      repeat constructor.
    unfold report. destruct (onError h); exact I.
  - exists []. cbn [fst snd]. repeat split. constructor.
Qed.

(** X25.  A request that is rejected as canceled makes [execute] resolve
    with [{ status: 'canceled' }] instead of throwing; nothing is reported,
    and the state is left as the start of the call set it: [loading] stays
    [true] and [error] [null]. *)
Theorem canceled_leaves_loading (h : Callbacks) (c : nat) (st : HookState)
    (args : list Arg) (e : ApiError) :
  apiCall h (apiCallArgs args c) = Some (Throw (VApiError e)) ->
  type e = CANCELED ->
  fst (execute h c st args)
  = (Some (Normal CanceledStatus), mkHookState (st_data st) true VNull None)
  /\ reports (snd (execute h c st args)) = [].
Proof.
  intros Hcall Htype. unfold execute. rewrite Hcall.
  unfold catchBlock, isCanceled. rewrite Htype.
  change (ErrorType_eqb CANCELED CANCELED) with true.
  cbn [fst snd]. rewrite finallyBlock_clears.
  split; [reflexivity |].
  rewrite reports_app, reports_aborted. reflexivity.
Qed.

Lemma canceled_leaves_loading_witness :
  fst (execute (mkCallbacks
                  (fun _ => Some (Throw (VApiError
                                           (mkApiError "Request was canceled" CANCELED 0
                                                       (DataOriginal (OriginalString ""))))))
                  None None)
               1 (mkHookState None false VNull None) [])
  = (Some (Normal CanceledStatus), mkHookState None true VNull None)
  /\ reports (snd (execute (mkCallbacks
                  (fun _ => Some (Throw (VApiError
                                           (mkApiError "Request was canceled" CANCELED 0
                                                       (DataOriginal (OriginalString ""))))))
                  None None)
               1 (mkHookState None false VNull None) [])) = [].
Proof.
  apply (@canceled_leaves_loading
           (mkCallbacks
              (fun _ => Some (Throw (VApiError
                                       (mkApiError "Request was canceled" CANCELED 0
                                                   (DataOriginal (OriginalString ""))))))
              None None)
           1 (mkHookState None false VNull None) []
           (mkApiError "Request was canceled" CANCELED 0
                       (DataOriginal (OriginalString "")))); reflexivity.
Defined.

(** X26.  When [execute] resolves with a response, that response is what
    [apiCall] resolved with; the state holds its data, [loading] is [false]
    and [error] [null]; nothing was reported, and [onSuccess] was called
    with it exactly when the hook has one. *)
Theorem execute_fulfilled (h : Callbacks) (c : nat) (st : HookState)
    (args : list Arg) (r : Success) (st' : HookState) (ev : list Effect) :
  execute h c st args = (Some (Normal (Response r)), st', ev) ->
  apiCall h (apiCallArgs args c) = Some (Normal r)
  /\ st' = mkHookState (Some (success_data r)) false VNull None
  /\ reports ev = []
  /\ filter (fun e => match e with OnSuccess _ => true | _ => false end) ev
     = match onSuccess h with
       | Some _ => [OnSuccess r]
       | None => []
       end.
Proof.
  unfold execute. cbn [st_error st_controller].
  destruct (apiCall h (apiCallArgs args c)) as [[response | err] |]; [| | discriminate].
  - destruct (onSuccess h) as [f |].
    + destruct (f response) as [u | x].
      * intros H. injection H as <- <- <-. rewrite finallyBlock_clears.
        repeat split.
        -- rewrite reports_app, reports_aborted. reflexivity.
        -- rewrite filter_app. destruct (st_controller st); reflexivity.
      * destruct (catchBlock_cases h
                    (mkHookState (Some (success_data response)) false VNull (Some c)) x)
          as [[-> _] | [[-> _] | [-> _]]]; discriminate.
    + intros H. injection H as <- <- <-. rewrite finallyBlock_clears.
      repeat split.
      * rewrite reports_app, reports_aborted. reflexivity.
      * rewrite filter_app. destruct (st_controller st); reflexivity.
  - destruct (catchBlock_cases h (mkHookState (st_data st) true VNull (Some c)) err)
      as [[-> _] | [[-> _] | [-> _]]]; discriminate.
Qed.

Lemma execute_fulfilled_witness :
  apiCall (mkCallbacks (fun _ => Some (Normal (mkSuccess (DataText "done") [] 200)))
                       (Some (fun _ => Normal tt)) None)
          (apiCallArgs [] 1)
  = Some (Normal (mkSuccess (DataText "done") [] 200))
  /\ mkHookState (Some (DataText "done")) false VNull None
     = mkHookState (Some (success_data (mkSuccess (DataText "done") [] 200)))
                   false VNull None
  /\ reports [CallApi (apiCallArgs [] 1); OnSuccess (mkSuccess (DataText "done") [] 200)]
     = []
  /\ filter (fun e => match e with OnSuccess _ => true | _ => false end)
            [CallApi (apiCallArgs [] 1); OnSuccess (mkSuccess (DataText "done") [] 200)]
     = match onSuccess (mkCallbacks
                          (fun _ => Some (Normal (mkSuccess (DataText "done") [] 200)))
                          (Some (fun _ => Normal tt)) None) with
       | Some _ => [OnSuccess (mkSuccess (DataText "done") [] 200)]
       | None => []
       end.
Proof.
  apply (@execute_fulfilled
           (mkCallbacks (fun _ => Some (Normal (mkSuccess (DataText "done") [] 200)))
                        (Some (fun _ => Normal tt)) None)
           1 (mkHookState None false VNull None) []).
  reflexivity.
Defined.

(** X27.  When [execute] throws, either the caught value was [undefined] or
    [null] (reading its [type] threw), or the caught value, which is what
    [apiCall] rejected with or what [onSuccess] threw, and is not a
    cancellation, is in [error], [loading] is [false], and the value was
    reported exactly once: to [onError] when the hook has one, to
    [logger.error] otherwise; it is thrown again, unless [onError] threw. *)
Theorem execute_rejected (h : Callbacks) (c : nat) (st : HookState)
    (args : list Arg) (x : Value ApiError) (st' : HookState) (ev : list Effect) :
  execute h c st args = (Some (Throw x), st', ev) ->
  (x = VError TypeError_property /\ reports ev = [])
  \/ exists err,
       (apiCall h (apiCallArgs args c) = Some (Throw err)
        \/ exists r callback,
             apiCall h (apiCallArgs args c) = Some (Normal r)
             /\ onSuccess h = Some callback
             /\ callback r = Throw err
             /\ st_data st' = Some (success_data r))
       /\ isCanceled err = false
       /\ st_error st' = err
       /\ st_loading st' = false
       /\ reports ev = [report h err]
       /\ x = rethrown h err.
Proof.
  unfold execute. cbn [st_error st_controller].
  destruct (apiCall h (apiCallArgs args c)) as [[response | err] |]; [| | discriminate].
  - destruct (onSuccess h) as [f |] eqn:Hf.
    + destruct (f response) as [u | y] eqn:Hy; [discriminate |].
      destruct (catchBlock_cases h
                  (mkHookState (Some (success_data response)) false VNull (Some c)) y)
        as [[-> _] | [[-> _] | [-> (Hc & _)]]]; [| discriminate |].
      * intros H. injection H as <- <- <-. left. split; [reflexivity |].
        rewrite reports_app, reports_aborted. reflexivity.
      * intros H. injection H as <- <- <-. right. exists y.
        cbn [st_data st_controller]. rewrite finallyBlock_clears.
        split; [right; exists response, f; auto |].
        repeat split; try assumption.
        rewrite reports_app, reports_aborted. cbn [app].
        change (reports (CallApi (apiCallArgs args c) :: OnSuccess response :: [report h y]))
          with (reports [report h y]).
        apply reports_report.
    + discriminate.
  - destruct (catchBlock_cases h (mkHookState (st_data st) true VNull (Some c)) err)
      as [[-> _] | [[-> _] | [-> (Hc & _)]]]; [| discriminate |].
    + intros H. injection H as <- <- <-. left. split; [reflexivity |].
      rewrite reports_app, reports_aborted. reflexivity.
    + intros H. injection H as <- <- <-. right. exists err.
      cbn [st_data st_controller]. rewrite finallyBlock_clears.
      split; [left; reflexivity |].
      repeat split; try assumption.
      rewrite reports_app, reports_aborted. cbn [app].
      change (reports (CallApi (apiCallArgs args c) :: [report h err]))
        with (reports [report h err]).
      apply reports_report.
Qed.

Lemma execute_rejected_witness :
  (@VError ApiError (mkRawError "TypeError" "Failed to fetch") = VError TypeError_property
   /\ reports [CallApi (apiCallArgs [] 1);
                LoggerError (VError (mkRawError "TypeError" "Failed to fetch"))] = [])
  \/ exists err,
       (apiCall HookCases.failing (apiCallArgs [] 1) = Some (Throw err)
        \/ exists r callback,
             apiCall HookCases.failing (apiCallArgs [] 1) = Some (Normal r)
             /\ onSuccess HookCases.failing = Some callback
             /\ callback r = Throw err
             /\ st_data (mkHookState None false
                            (VError (mkRawError "TypeError" "Failed to fetch")) None)
                = Some (success_data r))
       /\ isCanceled err = false
       /\ st_error (mkHookState None false
                       (VError (mkRawError "TypeError" "Failed to fetch")) None) = err
       /\ st_loading (mkHookState None false
                         (VError (mkRawError "TypeError" "Failed to fetch")) None) = false
       /\ reports [CallApi (apiCallArgs [] 1);
                   LoggerError (VError (mkRawError "TypeError" "Failed to fetch"))]
          = [report HookCases.failing err]
       /\ @VError ApiError (mkRawError "TypeError" "Failed to fetch")
          = rethrown HookCases.failing err.
Proof.
  apply (@execute_rejected HookCases.failing 1 HookCases.idle []).
  reflexivity.
Defined.



End HookFacts.

(** * Properties of [src/utils/logger.js] *)

Module LoggerFacts.
Import Logger.

(** X29.  The level check of the logger changes nothing: each of
    [logger.debug], [logger.info], [logger.warn] and [logger.error] emits
    exactly what [sendLog] emits for its level.  With [DEV] on, every
    message goes to the method of [console] named by its level; with [DEV]
    off, a message of level [error] goes to Sentry and every other one is
    dropped, [info] and [warn] although they pass the check.
    [logger.performance] passes no check: with [DEV] off its message is
    dropped too, and what it still does is hand [console.log] to the three
    functions of [web-vitals], when [PROD] is on. *)
Theorem logger_emits (DEV : bool) (level : LogLevel) (message : string) :
  log DEV level message = sendLog DEV level message
  /\ log DEV level message
     = (if DEV then [Console level message]
        else match level with
             | ERROR => [Sentry message]
             | _ => []
             end)
  /\ (DEV = false ->
      shouldLog DEV INFO = true /\ shouldLog DEV WARN = true
      /\ log DEV INFO message = [] /\ log DEV WARN message = [])
  /\ (forall PROD,
       performance DEV PROD message
       = (if DEV then [Console INFO ("Performance: " ++ message)%string] else [])
         ++ (if PROD
             then [WebVitals "getCLS"; WebVitals "getFID"; WebVitals "getLCP"]
             else [])).
Proof.
  destruct DEV, level; repeat split; try reflexivity; try discriminate;
    intros []; reflexivity.
Qed.

End LoggerFacts.
